(** * reverse.c: line-by-line reversal of a text file

    A shallow embedding of [reverse.c] and the verification of its
    specification.  The C program keeps two [FILE*] globals and a line
    buffer managed by [getline], and processes the input with the loop

      while (get_next_line() != END_OF_INPUT) { reverse_line(); output_line(); }

    - Characters are [ascii] values.  The line buffer is the list of the
      bytes of the whole allocated block, not only of the line it holds:
      [reverse_line] looks for the newline without a bound, so what lies
      behind the line matters.  Pointers into the block are offsets; a read
      outside the block is undefined behaviour and ends a run in [Fault].
    - The functions of the program are state transformers over a [machine]
      (the globals, the file system, the error stream and a log of the
      resources acquired and released) in a small monad in which [exit]
      ends the run.
    - The C library is modelled after POSIX.  What the program cannot
      control (permissions, allocation sizes, the content of fresh heap
      memory, device faults) is a parameter [env] of every function. *)

From Stdlib Require Import ZArith Ascii String Lia.
From stdpp Require Import gmap strings list.

(** ** Characters *)

Definition NL : ascii := "010"%char.   (* '\n' *)
Definition NUL : ascii := "000"%char.  (* '\0' *)

(** A C string literal as the list of its characters (terminator excluded). *)
Definition chars (s : string) : list ascii := list_ascii_of_string s.

(** ** The memory operations of [reverse_line]

    [mem] is the block [input_line_buffer] points to, every allocated byte of
    it.  Reading an offset outside the block is undefined behaviour in C and
    is [None] here. *)

(** [while ( *right != '\n') right++;] started at offset [right], where
    [suffix] is the part of the block from that offset on.  The first
    component lists the offsets read, in order; the second is the value of
    [right] when the loop ends, or [None] when the read leaves the block. *)
Fixpoint scan_newline (suffix : list ascii) (right : nat) : list nat * option nat :=
  match suffix with
  | [] => ([right], None)
  | c :: suffix' =>
      if decide (c = NL) then ([right], Some right)
      else let '(reads, r) := scan_newline suffix' (S right) in (right :: reads, r)
  end.

(** [tmp = *left; *left = *right; *right = tmp;] *)
Definition swap (mem : list ascii) (left right : Z) : option (list ascii) :=
  if ((left <? 0) || (right <? 0))%Z then None else
  match mem !! Z.to_nat left, mem !! Z.to_nat right with
  | Some l, Some r => Some (<[Z.to_nat right := l]> (<[Z.to_nat left := r]> mem))
  | _, _ => None
  end.

(** [while (left < right) { swap; left++; right--; }].  [fuel] bounds the
    number of iterations; [reverse_mem] passes the size of the block, which
    is always enough ([swap_loop_spec]). *)
Fixpoint swap_loop (fuel : nat) (mem : list ascii) (left right : Z) : option (list ascii) :=
  if (left <? right)%Z then
    match fuel with
    | O => None
    | S fuel' =>
        match swap mem left right with
        | Some mem' => swap_loop fuel' mem' (left + 1)%Z (right - 1)%Z
        | None => None
        end
    end
  else Some mem.

(** The body of [reverse_line] on the block: [left] starts at offset 0,
    [right] is moved to the first newline and one back (so it is -1 when the
    block starts with the newline). *)
Definition reverse_mem (mem : list ascii) : option (list ascii) :=
  match snd (scan_newline mem 0) with
  | Some nl => swap_loop (length mem) mem 0%Z (Z.of_nat nl - 1)%Z
  | None => None
  end.

(** The offsets [reverse_line] reads while it looks for the end of the line. *)
Definition scan_reads (mem : list ascii) : list nat := fst (scan_newline mem 0).

(** What [fprintf(f, "%s", p)] prints for the block [mem] at [p]: the bytes
    before the first NUL; [None] when the block holds no NUL. *)
Fixpoint c_string (mem : list ascii) : option (list ascii) :=
  match mem with
  | [] => None
  | c :: mem' => if decide (c = NUL) then Some [] else cons c <$> c_string mem'
  end.


(** ** The C library and the operating system

    What a run cannot control is collected in [env]: which paths [fopen]
    accepts, how [getline] sizes the block it allocates, what the heap holds
    where nothing was written yet, and where the devices fail. *)

Record env := {
  may_read : string -> bool;      (* fopen(path, "r") is permitted on an existing file *)
  may_write : string -> bool;     (* fopen(path, "w") can create or truncate the file *)
  alloc_size : nat -> nat -> nat; (* size getline asks for: current size (0 for NULL), bytes needed *)
  heap : nat -> ascii;            (* the byte a fresh allocation holds at each offset of the block *)
  read_fault : option nat;        (* input offset at which read(2) fails, if any *)
  disk_quota : option nat;        (* largest size the output file may reach, if limited *)
}.

(** The part of a [FILE] object the program depends on. *)
Record FILE := { f_path : string; f_pos : nat; f_err : bool }.

(** The error indicator of the stream behind a [FILE*] ([ferror]). *)
Definition stream_error (f : option FILE) : bool :=
  match f with Some f => f_err f | None => false end.

(** Acquisitions and releases of resources, in the order they happen. *)
Inductive event :=
| Opened (path : string)
| Closed (path : string)
| Allocated
| Freed.

#[global] Instance event_eq_dec : EqDecision event.
Proof. solve_decision. Defined.

Record machine := {
  (* the globals of reverse.c *)
  input_file : option FILE;
  output_file : option FILE;
  input_line_buffer : option (list ascii);
  input_line_size : nat;
  (* the world around the process *)
  files : gmap string (list ascii);
  stderr : string;
  events : list event;
}.

(** The process image at start: globals as initialised in the source. *)
Definition boot (fs : gmap string (list ascii)) : machine :=
  {| input_file := None; output_file := None;
     input_line_buffer := None; input_line_size := 0;
     files := fs; stderr := ""; events := [] |}.

(** Assignments to single fields of the machine. [set_buffer] is what
    [getline] does to [input_line_buffer] and [input_line_size] together. *)
Definition set_input_file (f : option FILE) (m : machine) : machine :=
  {| input_file := f; output_file := output_file m;
     input_line_buffer := input_line_buffer m; input_line_size := input_line_size m;
     files := files m; stderr := stderr m; events := events m |}.

Definition set_output_file (f : option FILE) (m : machine) : machine :=
  {| input_file := input_file m; output_file := f;
     input_line_buffer := input_line_buffer m; input_line_size := input_line_size m;
     files := files m; stderr := stderr m; events := events m |}.

Definition set_buffer (mem : list ascii) (m : machine) : machine :=
  {| input_file := input_file m; output_file := output_file m;
     input_line_buffer := Some mem; input_line_size := length mem;
     files := files m; stderr := stderr m; events := events m |}.

(** A store into the bytes of the block; its size stays what it is. *)
Definition set_block (mem : list ascii) (m : machine) : machine :=
  {| input_file := input_file m; output_file := output_file m;
     input_line_buffer := Some mem; input_line_size := input_line_size m;
     files := files m; stderr := stderr m; events := events m |}.

(** The file [filename] holds [data] from now on. *)
Definition set_contents (filename : string) (data : list ascii) (m : machine) : machine :=
  {| input_file := input_file m; output_file := output_file m;
     input_line_buffer := input_line_buffer m; input_line_size := input_line_size m;
     files := <[filename := data]> (files m); stderr := stderr m; events := events m |}.

(** One more event at the end of the log. *)
Definition log (e : event) (m : machine) : machine :=
  {| input_file := input_file m; output_file := output_file m;
     input_line_buffer := input_line_buffer m; input_line_size := input_line_size m;
     files := files m; stderr := stderr m; events := events m ++ [e] |}.

(** [fprintf(stderr, ...)] with the text it prints. *)
Definition eprint (msg : string) (m : machine) : machine :=
  {| input_file := input_file m; output_file := output_file m;
     input_line_buffer := input_line_buffer m; input_line_size := input_line_size m;
     files := files m; stderr := (stderr m +:+ msg)%string; events := events m |}.

(** The content of a file, empty when it does not exist. *)
Definition contents (m : machine) (filename : string) : list ascii :=
  default [] (files m !! filename).

(** [held] without the first occurrence of [e]. *)
Fixpoint remove_first (e : event) (held : list event) : list event :=
  match held with
  | [] => []
  | h :: held' => if decide (h = e) then held' else h :: remove_first e held'
  end.

(** What is held after the events [evs], when [held] was held before. *)
Fixpoint held_after (held : list event) (evs : list event) : list event :=
  match evs with
  | [] => held
  | Opened p :: evs' => held_after (Opened p :: held) evs'
  | Allocated :: evs' => held_after (Allocated :: held) evs'
  | Closed p :: evs' => held_after (remove_first (Opened p) held) evs'
  | Freed :: evs' => held_after (remove_first Allocated held) evs'
  end.

(** The streams and blocks a process has acquired and not released. *)
Definition held (m : machine) : list event := held_after [] (events m).

(** How a piece of the program ends. *)
Inductive outcome (A : Type) : Type :=
| Return (a : A) (m : machine)      (* control reaches the end of the function *)
| Exit (status : Z) (m : machine)   (* exit(status) was called *)
| Fault                             (* undefined behaviour: a read outside an allocated block *)
| OutOfFuel.                        (* the bound on the iterations of the model was too small *)
Arguments Return {A} a m.
Arguments Exit {A} status m.
Arguments Fault {A}.
Arguments OutOfFuel {A}.

(** A piece of the program: from the machine before it to its outcome.
    [exit] and a fault end everything that would follow. *)
Definition prog (A : Type) : Type := machine -> outcome A.

#[global] Instance prog_ret : MRet prog := fun A a m => Return a m.
#[global] Instance prog_bind : MBind prog := fun A B k c m =>
  match c m with
  | Return a m' => k a m'
  | Exit status m' => Exit status m'
  | Fault => Fault
  | OutOfFuel => OutOfFuel
  end.

(** [exit(status)] *)
Definition exit {A} (status : Z) : prog A := fun m => Exit status m.

Section Program.

Variable E : env.

(** *** stdio *)

(** The bytes of a file the device can deliver: those before [read_fault]. *)
Definition served (content : list ascii) : list ascii :=
  match read_fault E with Some k => take k content | None => content end.

(** The bytes [read] still delivers from offset [pos] of a file. *)
Definition unread (content : list ascii) (pos : nat) : list ascii :=
  drop pos (served content).

(** Whether the read that finds no more bytes fails, rather than reporting
    the end of the file. *)
Definition read_fails (content : list ascii) : bool :=
  match read_fault E with
  | Some k => bool_decide (k <= length content)%nat
  | None => false
  end.

(** The bytes up to and including the first newline, or all of them. *)
Fixpoint take_line (s : list ascii) : list ascii :=
  match s with
  | [] => []
  | c :: s' => if decide (c = NL) then [c] else c :: take_line s'
  end.

(** The block after [getline] stored [line] in it: the block is first grown
    when [line] and its terminator do not fit (fresh bytes come from the
    heap as they are), then the line and a NUL overwrite its beginning. The
    bytes behind the NUL are whatever the block held before. *)
Definition store_line (block : option (list ascii)) (line : list ascii) : list ascii :=
  let old := default [] block in
  let needed := S (length line) in
  let new_size := Nat.max needed (alloc_size E (length old) needed) in
  let blk := if decide (needed <= length old)%nat then old
             else old ++ (heap E <$> seq (length old) (new_size - length old)) in
  line ++ NUL :: drop needed blk.

(** The stream after [n] more bytes were read from it. *)
Definition advance (n : nat) (f : FILE) : FILE :=
  {| f_path := f_path f; f_pos := f_pos f + n; f_err := f_err f |}.

(** The stream with its error indicator set when [e] holds. *)
Definition flag_error (e : bool) (f : FILE) : FILE :=
  {| f_path := f_path f; f_pos := f_pos f; f_err := f_err f || e |}.

(** [getline(&input_line_buffer, &input_line_size, input_file)] where
    [input_file] points to [f]: the number of bytes of the line read, or -1
    when no byte could be read (end of file, or a read error). *)
Definition getline (f : FILE) (m : machine) : Z * machine :=
  let content := contents m (f_path f) in
  let line := take_line (unread content (f_pos f)) in
  match line with
  | [] => ((-1)%Z, set_input_file (Some (flag_error (read_fails content) f)) m)
  | _ :: _ =>
      let m1 := match input_line_buffer m with Some _ => m | None => log Allocated m end in
      (Z.of_nat (length line),
       set_input_file (Some (advance (length line) f))
         (set_buffer (store_line (input_line_buffer m) line) m1))
  end.

(** Whether the device takes the bytes [s] behind the bytes [old] of the
    output file. *)
Definition accepted (old s : list ascii) : bool :=
  match disk_quota E with
  | Some q => bool_decide (length old + length s <= q)%nat
  | None => true
  end.

(** [fprintf(f, "%s", s)] on a stream opened for writing; the return value
    is dropped as the program never uses it. A write the device refuses
    leaves the file as it is and sets the error indicator of the stream. *)
Definition fprintf_s (f : FILE) (s : list ascii) (m : machine) : machine :=
  let old := contents m (f_path f) in
  if accepted old s then set_contents (f_path f) (old ++ s) m
  else set_output_file (Some (flag_error true f)) m.

(** A stream that was just opened. *)
Definition fresh (filename : string) : FILE :=
  {| f_path := filename; f_pos := 0; f_err := false |}.

(** Whether [fopen(filename, "r")] succeeds: the file exists and may be read. *)
Definition can_read (fs : gmap string (list ascii)) (filename : string) : bool :=
  may_read E filename && bool_decide (is_Some (fs !! filename)).

(** [fopen(filename, mode)] for the two modes the program uses. Mode ["w"]
    creates the file or truncates it. *)
Definition fopen (filename mode : string) (m : machine) : option FILE * machine :=
  if decide (mode = "r"%string) then
    if can_read (files m) filename
    then (Some (fresh filename), log (Opened filename) m) else (None, m)
  else if decide (mode = "w"%string) then
    if may_write E filename
    then (Some (fresh filename), log (Opened filename) (set_contents filename [] m))
    else (None, m)
  else (None, m).

(** [fclose(f)] and [free(p)], results dropped. *)
Definition fclose (f : FILE) (m : machine) : machine := log (Closed (f_path f)) m.
Definition free (m : machine) : machine := log Freed m.

(** *** reverse.c *)

(** The address of one of the two [FILE*] globals. *)
Inductive file_var := InputFile | OutputFile.

(** [*ptr = f] *)
Definition store_file (ptr : file_var) (f : option FILE) : machine -> machine :=
  match ptr with
  | InputFile => set_input_file f
  | OutputFile => set_output_file f
  end.

(** [if (input_line_buffer && output_file)
      fprintf(output_file, "%s", input_line_buffer);] *)
Definition output_line : prog unit := fun m =>
  match input_line_buffer m, output_file m with
  | Some mem, Some f =>
      match c_string mem with
      | Some s => Return tt (fprintf_s f s m)
      | None => Fault
      end
  | _, _ => Return tt m
  end.

(** [reverse_line] works on the block behind [input_line_buffer] and on
    nothing else; it dereferences the pointer without a test. *)
Definition reverse_line : prog unit := fun m =>
  match input_line_buffer m with
  | Some mem =>
      match reverse_mem mem with
      | Some mem' => Return tt (set_block mem' m)
      | None => Fault
      end
  | None => Fault
  end.

(** [#define END_OF_INPUT (-1)] *)
Definition END_OF_INPUT : Z := (-1)%Z.

(** The conversion of [getline]'s [ssize_t] result to the [int] that
    [get_next_line] returns, on a platform with 64-bit [ssize_t] and 32-bit
    [int]: the value is taken modulo 2^32. *)
Definition to_int (z : Z) : Z := ((z + 2 ^ 31) mod 2 ^ 32 - 2 ^ 31)%Z.

(** [if (input_file) return getline(...); return END_OF_INPUT;] *)
Definition get_next_line : prog Z := fun m =>
  match input_file m with
  | Some f => let '(n, m') := getline f m in Return (to_int n) m'
  | None => Return END_OF_INPUT m
  end.

(** [if (input_file) fclose(input_file); if (output_file) fclose(output_file);
    if (input_line_buffer) free(input_line_buffer);]  The pointers keep
    their values. *)
Definition cleanup : prog unit := fun m =>
  let m1 := match input_file m with Some f => fclose f m | None => m end in
  let m2 := match output_file m1 with Some f => fclose f m1 | None => m1 end in
  let m3 := match input_line_buffer m2 with Some _ => free m2 | None => m2 end in
  Return tt m3.

(** [#define EXIT_ERR cleanup(); exit(1);] and
    [#define EXIT_SUCC cleanup(); exit(0);] *)
Definition EXIT_ERR {A} : prog A := cleanup ;; exit 1.
Definition EXIT_SUCC {A} : prog A := cleanup ;; exit 0.

(** The string ["\n"]. *)
Definition newline : string := String NL EmptyString.

(** [*ptr = fopen(filename, mode);
    if (!*ptr) { fprintf(stderr, "Error opening file: %s\n", filename); EXIT_ERR; }] *)
Definition open (ptr : file_var) (filename mode : string) : prog unit := fun m =>
  let '(f, m1) := fopen filename mode m in
  let m2 := store_file ptr f m1 in
  match f with
  | Some _ => Return tt m2
  | None => EXIT_ERR (eprint ("Error opening file: " +:+ filename +:+ newline) m2)
  end.

(** [fprintf(stderr, "Usage: %s [in-file] [out-file]\n", program);] *)
Definition print_usage (program : string) : prog unit := fun m =>
  Return tt (eprint ("Usage: " +:+ program +:+ " [in-file] [out-file]" +:+ newline) m).

(** [while (get_next_line() != END_OF_INPUT) { reverse_line(); output_line(); }] *)
Fixpoint main_loop (fuel : nat) : prog unit :=
  match fuel with
  | O => fun _ => OutOfFuel
  | S fuel' =>
      n ← get_next_line;
      if decide (n ≠ END_OF_INPUT) then reverse_line ;; output_line ;; main_loop fuel'
      else mret tt
  end.

(** A bound on the iterations of the loop: every iteration but the last
    consumes at least one byte of the input file. *)
Definition loop_fuel (m : machine) : nat :=
  match input_file m with
  | Some f => S (length (contents m (f_path f)))
  | None => 1
  end.

(** [main(argc, argv)] with [argv = program :: args], so that [argc] is the
    number of arguments plus one. *)
Definition main (program : string) (args : list string) : prog unit :=
  let argc := Z.of_nat (length (program :: args)) in
  let argv (i : nat) : string := nth i (program :: args) ""%string in
  let args_correct := (argc =? 3)%Z in
  (if negb args_correct then print_usage (argv 0%nat) ;; EXIT_ERR else mret tt) ;;
  open InputFile (argv 1%nat) "r" ;;
  open OutputFile (argv 2%nat) "w" ;;
  (fun m => main_loop (loop_fuel m) m) ;;
  EXIT_SUCC.

End Program.

(** ** The specification's vocabulary *)

(** [reverse] of §4.1: the characters before the trailing newline, if there
    is one, are reversed and the newline stays last. *)
Definition spec_reverse (line : list ascii) : list ascii :=
  if decide (last line = Some NL) then reverse (removelast line) ++ [NL]
  else reverse line.

(** The lines of a text (glossary): maximal runs of characters up to and
    including a newline, or up to the end when no newline remains. *)
Fixpoint split_lines (s : list ascii) : list (list ascii) :=
  match s with
  | [] => []
  | c :: s' =>
      if decide (c = NL) then [c] :: split_lines s'
      else match split_lines s' with
           | [] => [[c]]
           | l :: ls => (c :: l) :: ls
           end
  end.

(** A line as [getline] delivers it before the end of the input: some
    characters other than the newline, then the newline. *)
Definition terminated (l : list ascii) : Prop := last l = Some NL.

(** ** What the loop does, line by line *)

(** The prefix of [s] before its first NUL: what [%s] prints of a line. *)
Fixpoint until_nul (s : list ascii) : list ascii :=
  match s with
  | [] => []
  | c :: s' => if decide (c = NUL) then [] else c :: until_nul s'
  end.

(** The output file after the lines [ls] were processed one after the other,
    when it held [old] before: each reversed line is printed with [%s], and
    a write the device refuses changes nothing. *)
Fixpoint written (E : env) (old : list ascii) (ls : list (list ascii)) : list ascii :=
  match ls with
  | [] => old
  | l :: ls' =>
      let s := until_nul (spec_reverse l) in
      written E (if accepted E old s then old ++ s else old) ls'
  end.

(** Whether the device refuses one of these writes. *)
Fixpoint refused (E : env) (old : list ascii) (ls : list (list ascii)) : bool :=
  match ls with
  | [] => false
  | l :: ls' =>
      let s := until_nul (spec_reverse l) in
      if accepted E old s then refused E (old ++ s) ls' else true
  end.

(** The machine after one iteration of the loop in [main], for the streams
    [fin] and [fout] and the line [l] read from [fin]: [getline] stored [l]
    in the block, [reverse_line] reversed it there and [output_line]
    printed the block. *)
Definition after_line (E : env) (fin fout : FILE) (l : list ascii) (m : machine) : machine :=
  let block := store_line E (input_line_buffer m) l in
  let m0 := match input_line_buffer m with Some _ => m | None => log Allocated m end in
  let m1 := set_input_file (Some (advance (length l) fin)) (set_buffer block m0) in
  let m2 := set_block (spec_reverse l ++ drop (length l) block) m1 in
  fprintf_s E fout (until_nul (spec_reverse l)) m2.

(** The allocation of the line buffer in the log of a machine that holds
    one. *)
Definition alloc_log (m : machine) : list event :=
  match input_line_buffer m with Some _ => [Allocated] | None => [] end.

(** How the machine [m'] after the loop relates to the machine [m] before
    it, for the streams [fin] and [fout] of [m] and the lines [ls] that were
    still to be read. *)
Record loop_post (E : env) (m m' : machine) (fin fout : FILE)
    (ls : list (list ascii)) : Prop := {
  post_input : exists fin', input_file m' = Some fin' /\ f_path fin' = f_path fin
    /\ f_err fin' = f_err fin || read_fails E (contents m (f_path fin));
  post_output : exists fout', output_file m' = Some fout' /\ f_path fout' = f_path fout
    /\ f_err fout' = f_err fout || refused E (contents m (f_path fout)) ls;
  post_written : contents m' (f_path fout) = written E (contents m (f_path fout)) ls;
  post_files : forall p, p ≠ f_path fout -> files m' !! p = files m !! p;
  post_stderr : stderr m' = stderr m;
  post_events : forall base, events m = base ++ alloc_log m -> events m' = base ++ alloc_log m';
}.

(** The largest line length that [get_next_line] can tell from
    [END_OF_INPUT] for sure: below [UINT_MAX]. *)
Definition fits_int (n : nat) : Prop := (Z.of_nat n < 2 ^ 32 - 1)%Z.

(** ** Example systems and inputs *)

(** The sizes glibc's [getline] asks for: 120 bytes first, then twice the
    current size. *)
Definition glibc_size (cur needed : nat) : nat :=
  if decide (cur = 0)%nat then 120%nat else (2 * cur)%nat.

(** A system without faults whose heap holds [fill] everywhere. *)
Definition plain_env (fill : ascii) : env :=
  {| may_read := fun _ => true; may_write := fun _ => true;
     alloc_size := glibc_size; heap := fun _ => fill;
     read_fault := None; disk_quota := None |}.

(** A system whose input device fails at offset [k]. *)
Definition broken_input (k : nat) : env :=
  {| may_read := fun _ => true; may_write := fun _ => true;
     alloc_size := glibc_size; heap := fun _ => NUL;
     read_fault := Some k; disk_quota := None |}.

(** A system whose output file cannot grow beyond [q] bytes. *)
Definition full_disk (q : nat) : env :=
  {| may_read := fun _ => true; may_write := fun _ => true;
     alloc_size := glibc_size; heap := fun _ => NUL;
     read_fault := None; disk_quota := Some q |}.

(** A system in which no file can be opened for writing. *)
Definition locked (fill : ascii) : env :=
  {| may_read := fun _ => true; may_write := fun _ => false;
     alloc_size := glibc_size; heap := fun _ => fill;
     read_fault := None; disk_quota := None |}.

(** A file system that holds the input file ["in"] only. *)
Definition fs1 (data : list ascii) : gmap string (list ascii) := {[ "in"%string := data ]}.

(** The run [reverse in out] on that file system. *)
Definition run (E : env) (data : list ascii) : outcome unit :=
  main E "reverse" ["in"; "out"]%string (boot (fs1 data)).

(** Scenario 1 of the specification. *)
Definition hello_world : list ascii :=
  chars "hello" ++ [NL] ++ chars "world" ++ [NL].

(** The block after [getline] read the line [noeol] into a fresh allocation
    of a heap that holds NUL bytes. *)
Definition noeol_block : list ascii :=
  store_line (plain_env NUL) None (chars "noeol").

(** A text with a NUL byte in its only line. *)
Definition nul_text : list ascii := chars "a" ++ [NUL] ++ chars "b" ++ [NL].

(** That line, reversed. *)
Definition nul_line : list ascii := chars "b" ++ [NUL] ++ chars "a" ++ [NL].

(** The first line of scenario 1, reversed. *)
Definition olleh : list ascii := chars "olleh" ++ [NL].

(** A machine in the middle of the loop whose line buffer is [mem]. *)
Definition holding (mem : list ascii) : machine :=
  {| input_file := None; output_file := Some (fresh "out");
     input_line_buffer := Some mem; input_line_size := length mem;
     files := {[ "out"%string := [] ]}; stderr := ""; events := [] |}.

(** A machine about to enter the loop, with [data] in the input file. *)
Definition reading (data : list ascii) : machine :=
  {| input_file := Some (fresh "in"); output_file := Some (fresh "out");
     input_line_buffer := None; input_line_size := 0;
     files := <[ "in"%string := data ]> {[ "out"%string := [] ]}; stderr := ""; events := [] |}.

(** Decides a [Forall] over the lines of a concrete text, line by line. *)
Ltac each_line :=
  match goal with
  | |- Forall ?P ?ls =>
      let ls' := eval vm_compute in ls in
      change (Forall P ls');
      repeat (constructor; [repeat split; vm_compute; reflexivity|]);
      constructor
  end.

(** ** Ownership of resources *)

(** The resources the globals of a machine refer to: a stream behind each
    [FILE*] that is not NULL, a block behind the buffer pointer. *)
Definition resources (m : machine) : list event :=
  match input_file m with Some f => [Opened (f_path f)] | None => [] end
  ++ match output_file m with Some f => [Opened (f_path f)] | None => [] end
  ++ match input_line_buffer m with Some _ => [Allocated] | None => [] end.

(** What the process holds is what its globals refer to, each once. *)
Definition owned (m : machine) : Prop := held m ≡ₚ resources m.

(** What the loop keeps, whatever the input holds: [m'] is the machine after
    it, [m] the one before, with the streams [fin] and [fout]. *)
Record loop_frame (m m' : machine) (fin fout : FILE) : Prop := {
  frame_input : exists fin', input_file m' = Some fin' /\ f_path fin' = f_path fin;
  frame_output : exists fout', output_file m' = Some fout' /\ f_path fout' = f_path fout;
  frame_files : forall p, p ≠ f_path fout -> files m' !! p = files m !! p;
  frame_output_file : is_Some (files m !! f_path fout) -> is_Some (files m' !! f_path fout);
  frame_stderr : stderr m' = stderr m;
  frame_owned : owned m -> owned m';
}.

(** Whether both files of a command line open: two arguments, a readable
    input and a writable output. *)
Definition opens (E : env) (fs : gmap string (list ascii)) (args : list string) : bool :=
  match args with
  | [inp; outp] => can_read E fs inp && may_write E outp
  | _ => false
  end.

(** The exit status of a run that ended in [exit], and the machine a call
    or a run left behind. *)
Definition status_of (o : outcome unit) : Z :=
  match o with Exit status _ => status | _ => (-1)%Z end.

Definition machine_of {A : Type} (o : outcome A) : machine :=
  match o with Exit _ m => m | Return _ m => m | _ => boot ∅ end.

(** A machine that has opened both files and holds nothing else. *)
Definition opened : machine :=
  set_output_file (Some (fresh "out"))
    (log (Opened "out")
       (set_input_file (Some (fresh "in")) (log (Opened "in") (boot ∅)))).

(** The block after the line ["xy"] was read into a buffer that held the
    reversed line ["abcdefgh\n"] before. *)
Definition stale_block : list ascii :=
  chars "xy" ++ [NUL] ++ chars "edcba" ++ [NL; NUL].

(** The offset [right] holds when the swaps start, after [right--] (line
    82): one before the first newline, [None] when the scan leaves the
    block.  It is [-1] when the block starts with the newline: the C program
    then holds a pointer one before the block, to which the language gives
    no meaning although nothing is read or written through it ([left <
    right] is false at once).  [reverse_mem] computes the offset in [Z] and
    goes on; [Fault] stands for the reads outside the block only. *)
Definition right_end (mem : list ascii) : option Z :=
  match snd (scan_newline mem 0) with
  | Some nl => Some (Z.of_nat nl - 1)%Z
  | None => None
  end.

(** * Verification *)

(** ** The scan for the newline *)

Lemma scan_newline_found (pre post : list ascii) (k : nat) :
  NL ∉ pre ->
  scan_newline (pre ++ NL :: post) k = (seq k (S (length pre)), Some (k + length pre)%nat).
Proof.
  revert k. induction pre as [|c pre IH]; intros k Hpre; simpl.
  - by rewrite Nat.add_0_r.
  - apply not_elem_of_cons in Hpre as [Hc Hpre].
    rewrite decide_False by congruence.
    rewrite IH by done. do 2 f_equal. lia.
Qed.

Lemma scan_newline_missing (mem : list ascii) (k : nat) :
  NL ∉ mem ->
  scan_newline mem k = (seq k (S (length mem)), None).
Proof.
  revert k. induction mem as [|c mem IH]; intros k Hmem; simpl; [done|].
  apply not_elem_of_cons in Hmem as [Hc Hmem].
  rewrite decide_False by congruence.
  by rewrite IH.
Qed.

Lemma scan_newline_head (s : list ascii) (k : nat) :
  exists more, fst (scan_newline s k) = k :: more.
Proof.
  destruct s as [|c s]; simpl; [by eexists|].
  destruct (decide (c = NL)); [by eexists|].
  destruct (scan_newline s (S k)). by eexists.
Qed.

Lemma scan_newline_app (l rest : list ascii) (k : nat) :
  NL ∉ l ->
  fst (scan_newline (l ++ rest) k) = seq k (length l) ++ fst (scan_newline rest (k + length l)).
Proof.
  revert k. induction l as [|c l IH]; intros k Hl; simpl.
  - by rewrite Nat.add_0_r.
  - apply not_elem_of_cons in Hl as [Hc Hl].
    rewrite decide_False by congruence.
    specialize (IH (S k) Hl).
    destruct (scan_newline (l ++ rest) (S k)) as [reads r]. simpl in *.
    rewrite IH. replace (k + S (length l))%nat with (S k + length l)%nat by lia.
    reflexivity.
Qed.

(** For a line that ends in a newline the scan reads the offsets of the line
    only. *)
Lemma scan_reads_terminated (body rest : list ascii) :
  NL ∉ body ->
  scan_reads ((body ++ [NL]) ++ rest) = seq 0 (length (body ++ [NL])).
Proof.
  intros Hbody. unfold scan_reads. rewrite <- app_assoc. simpl.
  rewrite scan_newline_found by done. simpl. rewrite length_app. simpl.
  by rewrite Nat.add_1_r.
Qed.

(** For a line without a newline it reads the terminator and the byte behind
    it as well. *)
Lemma scan_reads_unterminated (l rest : list ascii) :
  NL ∉ l ->
  exists more, scan_reads (l ++ NUL :: rest) = seq 0 (S (S (length l))) ++ more.
Proof.
  intros Hl. unfold scan_reads.
  change (l ++ NUL :: rest) with (l ++ [NUL] ++ rest). rewrite app_assoc.
  rewrite scan_newline_app.
  2:{ apply not_elem_of_app. split; [done|].
      apply not_elem_of_cons. split; [done | apply not_elem_of_nil]. }
  destruct (scan_newline_head rest (0 + length (l ++ [NUL]))) as [more ->].
  exists more. rewrite length_app. simpl length.
  rewrite Nat.add_1_r. rewrite (seq_S (S (length l))). simpl.
  rewrite <- app_assoc. reflexivity.
Qed.

(** Every block splits at its first newline, unless it has none. *)
Lemma first_newline (mem : list ascii) :
  NL ∉ mem \/ exists pre post, mem = pre ++ NL :: post /\ NL ∉ pre.
Proof.
  induction mem as [|c mem [IH|(pre & post & -> & Hpre)]].
  - left. apply not_elem_of_nil.
  - destruct (decide (c = NL)) as [->|Hc].
    + right. exists [], mem. split; [done | apply not_elem_of_nil].
    + left. apply not_elem_of_cons. split; [congruence | done].
  - right. destruct (decide (c = NL)) as [->|Hc].
    + exists [], (pre ++ NL :: post). split; [done | apply not_elem_of_nil].
    + exists (c :: pre), post. split; [done|].
      apply not_elem_of_cons. split; [congruence | done].
Qed.

(** ** The two-pointer loop *)

Lemma swap_ends (A M B : list ascii) (x y : ascii) :
  swap (A ++ x :: M ++ y :: B) (Z.of_nat (length A)) (Z.of_nat (length A + S (length M)))
  = Some (A ++ y :: M ++ x :: B).
Proof.
  unfold swap.
  replace (_ || _) with false
    by (symmetry; apply orb_false_iff; split; apply Z.ltb_ge; lia).
  rewrite !Nat2Z.id.
  rewrite list_lookup_middle by done.
  replace ((A ++ x :: M ++ y :: B) !! (length A + S (length M))%nat) with (Some y).
  2:{ symmetry. change (A ++ x :: M ++ y :: B) with (A ++ (x :: M) ++ y :: B).
      rewrite (app_assoc A (x :: M)). apply list_lookup_middle.
      rewrite length_app. simpl. lia. }
  f_equal.
  rewrite insert_app_r_alt by lia. rewrite Nat.sub_diag. simpl.
  rewrite insert_app_r_alt by lia.
  replace (length A + S (length M) - length A)%nat with (S (length M)) by lia.
  simpl. f_equal. f_equal.
  rewrite insert_app_r_alt by lia. by rewrite Nat.sub_diag.
Qed.

Lemma swap_loop_spec (fuel : nat) (A M B : list ascii) :
  (length M <= fuel)%nat ->
  swap_loop fuel (A ++ M ++ B) (Z.of_nat (length A)) (Z.of_nat (length A + length M) - 1)
  = Some (A ++ reverse M ++ B).
Proof.
  revert A M B. induction fuel as [|fuel IH]; intros A M B Hfuel.
  - destruct M; [|simpl in Hfuel; lia]. simpl.
    by replace (_ <? _)%Z with false by (symmetry; apply Z.ltb_ge; lia).
  - destruct M as [|x M].
    { simpl. by replace (_ <? _)%Z with false by (symmetry; apply Z.ltb_ge; lia). }
    destruct M as [|y M _] using rev_ind.
    { simpl. by replace (_ <? _)%Z with false by (symmetry; apply Z.ltb_ge; lia). }
    simpl in Hfuel. rewrite length_app in Hfuel. simpl in Hfuel.
    cbn [swap_loop].
    replace (_ <? _)%Z with true
      by (symmetry; apply Z.ltb_lt; simpl; rewrite length_app; simpl; lia).
    replace (Z.of_nat (length A + length (x :: M ++ [y])) - 1)%Z
      with (Z.of_nat (length A + S (length M))) by (simpl; rewrite length_app; simpl; lia).
    replace (A ++ (x :: M ++ [y]) ++ B) with (A ++ x :: M ++ y :: B)
      by (simpl; by rewrite <- (app_assoc M [y] B)).
    rewrite swap_ends.
    replace (A ++ y :: M ++ x :: B) with ((A ++ [y]) ++ M ++ (x :: B))
      by (by rewrite <- app_assoc).
    replace (Z.of_nat (length A) + 1)%Z with (Z.of_nat (length (A ++ [y])))
      by (rewrite length_app; simpl; lia).
    replace (Z.of_nat (length A + S (length M)) - 1)%Z
      with (Z.of_nat (length (A ++ [y]) + length M) - 1)%Z
      by (rewrite length_app; simpl; lia).
    rewrite IH by lia.
    f_equal. rewrite reverse_cons, reverse_app. simpl.
    rewrite <- !app_assoc. reflexivity.
Qed.

(** ** [reverse_line] on the block *)

(** The block is reversed up to its first newline and is otherwise left as
    it is. *)
Lemma reverse_mem_newline (pre post : list ascii) :
  NL ∉ pre ->
  reverse_mem (pre ++ NL :: post) = Some (reverse pre ++ NL :: post).
Proof.
  intros Hpre. unfold reverse_mem.
  rewrite scan_newline_found by done. simpl.
  apply (swap_loop_spec (length (pre ++ NL :: post)) [] pre (NL :: post)).
  rewrite length_app. lia.
Qed.

(** Without a newline in the block the scan leaves the block. *)
Lemma reverse_mem_no_newline (mem : list ascii) :
  NL ∉ mem -> reverse_mem mem = None.
Proof.
  intros Hmem. unfold reverse_mem. by rewrite scan_newline_missing.
Qed.

Lemma reverse_mem_None (mem : list ascii) :
  reverse_mem mem = None <-> NL ∉ mem.
Proof.
  split; [|apply reverse_mem_no_newline].
  destruct (first_newline mem) as [H|(pre & post & -> & Hpre)]; [done|].
  by rewrite reverse_mem_newline.
Qed.

Lemma not_elem_of_reverse (c : ascii) (l : list ascii) : c ∉ l -> c ∉ reverse l.
Proof. intros H Hin. apply H. by apply elem_of_reverse. Qed.

(** Reversing twice gives the block back, whenever the scan stays inside. *)
Lemma reverse_mem_involutive (mem mem' : list ascii) :
  reverse_mem mem = Some mem' -> reverse_mem mem' = Some mem.
Proof.
  destruct (first_newline mem) as [H|(pre & post & -> & Hpre)].
  - by rewrite reverse_mem_no_newline.
  - rewrite reverse_mem_newline by done. intros [= <-].
    rewrite reverse_mem_newline by (by apply not_elem_of_reverse).
    by rewrite reverse_involutive.
Qed.

(** A line without a newline, as [getline] stores the last line of a file
    that does not end in one: the scan goes on into the bytes behind the
    terminator.  It leaves the block when they hold no newline; otherwise
    everything before their first newline is reversed, the terminator
    included. *)
Lemma reverse_mem_unterminated_fault (l rest : list ascii) :
  NL ∉ l -> NL ∉ rest -> reverse_mem (l ++ NUL :: rest) = None.
Proof.
  intros Hl Hrest. apply reverse_mem_no_newline.
  apply not_elem_of_app. split; [done|].
  apply not_elem_of_cons. split; [done | exact Hrest].
Qed.

Lemma reverse_mem_unterminated_swap (l pre post : list ascii) :
  NL ∉ l -> NL ∉ pre ->
  reverse_mem (l ++ NUL :: pre ++ NL :: post)
  = Some (reverse pre ++ NUL :: reverse l ++ NL :: post).
Proof.
  intros Hl Hpre.
  replace (l ++ NUL :: pre ++ NL :: post) with ((l ++ NUL :: pre) ++ NL :: post)
    by (by rewrite <- app_assoc).
  rewrite reverse_mem_newline.
  - rewrite reverse_app, reverse_cons, <- !app_assoc. reflexivity.
  - apply not_elem_of_app. split; [done|].
    apply not_elem_of_cons. split; [done | exact Hpre].
Qed.

(** ** [%s] *)

Lemma c_string_terminated (s rest : list ascii) :
  NUL ∉ s -> c_string (s ++ NUL :: rest) = Some s.
Proof.
  induction s as [|c s IH]; intros Hs; simpl.
  - done.
  - apply not_elem_of_cons in Hs as [Hc Hs].
    rewrite decide_False by congruence. by rewrite IH.
Qed.

Lemma until_nul_id (s : list ascii) : NUL ∉ s -> until_nul s = s.
Proof.
  induction s as [|c s IH]; intros Hs; simpl; [done|].
  apply not_elem_of_cons in Hs as [Hc Hs].
  rewrite decide_False by congruence. by rewrite IH.
Qed.

Lemma c_string_until_nul (s rest : list ascii) :
  c_string (s ++ NUL :: rest) = Some (until_nul s).
Proof.
  induction s as [|c s IH]; simpl; [done|].
  destruct (decide (c = NUL)); [done|]. by rewrite IH.
Qed.

(** ** Lines *)

Lemma take_line_shape (s : list ascii) :
  (exists body rest, s = body ++ NL :: rest /\ (NL ∉ body) /\ take_line s = body ++ [NL])
  \/ ((NL ∉ s) /\ take_line s = s).
Proof.
  induction s as [|c s IH]; simpl.
  - right. split; [apply not_elem_of_nil | done].
  - destruct (decide (c = NL)) as [->|Hc].
    + left. exists [], s. split; [done|]. split; [apply not_elem_of_nil | done].
    + destruct IH as [(body & rest & -> & Hbody & ->)|[Hs ->]].
      * left. exists (c :: body), rest. split; [done|]. split; [|done].
        apply not_elem_of_cons. split; [congruence | done].
      * right. split; [|done]. apply not_elem_of_cons. split; [congruence | done].
Qed.

Lemma take_line_nil (s : list ascii) : take_line s = [] -> s = [].
Proof. destruct s as [|c s]; [done|]. simpl. by destruct (decide (c = NL)). Qed.

Lemma terminated_snoc (body : list ascii) : terminated (body ++ [NL]).
Proof. unfold terminated. by rewrite last_snoc. Qed.

Lemma terminated_take_line (s : list ascii) :
  terminated (take_line s) ->
  exists body, take_line s = body ++ [NL] /\ NL ∉ body.
Proof.
  destruct (take_line_shape s) as [(body & rest & _ & Hbody & ->)|[Hs ->]].
  - intros _. by exists body.
  - unfold terminated. intros Hlast. destruct Hs.
    apply last_Some in Hlast as [body ->]. set_solver.
Qed.

Lemma take_line_prefix (s : list ascii) :
  take_line s ++ drop (length (take_line s)) s = s.
Proof.
  induction s as [|c s IH]; simpl; [done|].
  destruct (decide (c = NL)); simpl; [by rewrite drop_0 | by rewrite IH].
Qed.

Lemma split_lines_unfold (s : list ascii) :
  s ≠ [] ->
  split_lines s = take_line s :: split_lines (drop (length (take_line s)) s).
Proof.
  induction s as [|c s IH]; intros Hs; [done|]. simpl.
  destruct (decide (c = NL)) as [->|Hc]; simpl; [by rewrite drop_0|].
  destruct s as [|c' s]; [done|].
  by rewrite IH.
Qed.

Lemma concat_split_lines (s : list ascii) : concat (split_lines s) = s.
Proof.
  induction s as [|c s IH]; simpl; [done|].
  destruct (decide (c = NL)); simpl; [by rewrite IH|].
  destruct (split_lines s) as [|l ls]; simpl in *; by rewrite <- IH.
Qed.

Lemma split_lines_length (s l : list ascii) :
  l ∈ split_lines s -> (length l <= length s)%nat.
Proof.
  intros Hl. rewrite <- (concat_split_lines s).
  apply list_elem_of_split in Hl as (ls1 & ls2 & ->).
  rewrite concat_app, length_app. simpl. rewrite length_app. lia.
Qed.

Lemma split_lines_elem (s l : list ascii) (c : ascii) :
  l ∈ split_lines s -> c ∈ l -> c ∈ s.
Proof.
  intros Hl Hc. rewrite <- (concat_split_lines s).
  apply list_elem_of_split in Hl as (ls1 & ls2 & ->).
  rewrite concat_app. simpl. set_solver.
Qed.

(** Newline-terminated lines put one after the other split back into
    themselves. *)
Lemma split_lines_app (body rest : list ascii) :
  NL ∉ body ->
  split_lines ((body ++ [NL]) ++ rest) = (body ++ [NL]) :: split_lines rest.
Proof.
  induction body as [|c body IH]; intros Hbody; simpl; [done|].
  apply not_elem_of_cons in Hbody as [Hc Hbody].
  rewrite decide_False by congruence. by rewrite IH.
Qed.

Lemma split_lines_terminated (s : list ascii) :
  Forall (fun l => terminated l -> exists body, l = body ++ [NL] /\ NL ∉ body) (split_lines s).
Proof.
  induction s as [|c s IH]; simpl; [constructor|].
  destruct (decide (c = NL)) as [->|Hc].
  - constructor; [|done]. intros _. exists []. split; [done | apply not_elem_of_nil].
  - destruct (split_lines s) as [|l ls].
    + constructor; [|done]. unfold terminated. simpl. congruence.
    + apply Forall_cons in IH as [Hl Hls]. constructor; [|done].
      unfold terminated. destruct l as [|c' l]; [simpl; congruence|].
      change (last (c :: c' :: l)) with (last (c' :: l)). intros Hlast.
      destruct (Hl Hlast) as (body & -> & Hbody).
      exists (c :: body). split; [done|].
      apply not_elem_of_cons. split; [congruence | done].
Qed.

Lemma split_lines_concat (ls : list (list ascii)) :
  Forall (fun l => exists body, l = body ++ [NL] /\ NL ∉ body) ls ->
  split_lines (concat ls) = ls.
Proof.
  induction 1 as [|l ls (body & -> & Hbody) Hls IH]; simpl; [done|].
  by rewrite split_lines_app, IH.
Qed.

(** ** [spec_reverse] *)

Lemma spec_reverse_terminated (body : list ascii) :
  spec_reverse (body ++ [NL]) = reverse body ++ [NL].
Proof.
  unfold spec_reverse. rewrite decide_True by apply terminated_snoc.
  by rewrite removelast_last.
Qed.

Lemma spec_reverse_open (l : list ascii) :
  (¬ terminated l) -> spec_reverse l = reverse l.
Proof. intros Hl. unfold spec_reverse. by rewrite decide_False. Qed.

Lemma elem_of_spec_reverse (c : ascii) (l : list ascii) :
  c ∈ spec_reverse l <-> c ∈ l.
Proof.
  unfold spec_reverse. destruct (decide (last l = Some NL)) as [Hl|Hl].
  - apply last_Some in Hl as [body ->]. rewrite removelast_last.
    rewrite !elem_of_app, elem_of_reverse. tauto.
  - apply elem_of_reverse.
Qed.

(** Without faults and NUL bytes the output is the reversed lines, one after
    the other. *)
Lemma written_plain (E : env) (old : list ascii) (ls : list (list ascii)) :
  disk_quota E = None ->
  Forall (fun l => NUL ∉ l) ls ->
  written E old ls = old ++ concat (spec_reverse <$> ls).
Proof.
  intros Hq Hls. revert old. induction Hls as [|l ls Hl Hls IH]; intros old; simpl.
  - by rewrite app_nil_r.
  - unfold accepted. rewrite Hq.
    rewrite until_nul_id by (by rewrite elem_of_spec_reverse).
    by rewrite IH, app_assoc.
Qed.

(** ** The [int] returned by [get_next_line] *)

Lemma to_int_eof : to_int (-1) = END_OF_INPUT.
Proof. reflexivity. Qed.

Lemma to_int_length (n : nat) : fits_int n -> to_int (Z.of_nat n) ≠ END_OF_INPUT.
Proof.
  unfold fits_int, to_int, END_OF_INPUT. intros Hn Heq.
  assert (H : ((Z.of_nat n + 2 ^ 31) mod 2 ^ 32 = 2 ^ 31 - 1)%Z) by lia.
  destruct (Z.lt_ge_cases (Z.of_nat n) (2 ^ 31)) as [Hlt|Hge].
  - rewrite Z.mod_small in H by lia. lia.
  - replace (Z.of_nat n + 2 ^ 31)%Z with ((Z.of_nat n - 2 ^ 31) + 1 * 2 ^ 32)%Z in H by lia.
    rewrite Z.mod_add in H by lia. rewrite Z.mod_small in H by lia. lia.
Qed.

(** ** The loop of [main] *)

Section Loop.
Variable E : env.

Lemma store_line_tail (block : option (list ascii)) (l : list ascii) :
  exists tail, store_line E block l = l ++ NUL :: tail.
Proof. unfold store_line. by eexists. Qed.

Lemma getline_line (f : FILE) (m : machine) (l : list ascii) :
  take_line (unread E (contents m (f_path f)) (f_pos f)) = l -> l ≠ [] ->
  getline E f m =
    (Z.of_nat (length l),
     set_input_file (Some (advance (length l) f))
       (set_buffer (store_line E (input_line_buffer m) l)
          match input_line_buffer m with Some _ => m | None => log Allocated m end)).
Proof. intros Hl Hne. unfold getline. rewrite Hl. by destruct l. Qed.

Lemma getline_end (f : FILE) (m : machine) :
  unread E (contents m (f_path f)) (f_pos f) = [] ->
  getline E f m =
    ((-1)%Z, set_input_file (Some (flag_error (read_fails E (contents m (f_path f))) f)) m).
Proof. intros Hl. unfold getline. by rewrite Hl. Qed.

Lemma main_loop_step (fuel : nat) (m : machine) (fin fout : FILE) (body : list ascii) :
  input_file m = Some fin ->
  output_file m = Some fout ->
  take_line (unread E (contents m (f_path fin)) (f_pos fin)) = body ++ [NL] ->
  NL ∉ body -> fits_int (length (body ++ [NL])) ->
  main_loop E (S fuel) m = main_loop E fuel (after_line E fin fout (body ++ [NL]) m).
Proof.
  intros Hin Hout Hl Hnl Hfit.
  cbn [main_loop]. unfold mbind, prog_bind at 1. unfold get_next_line.
  rewrite Hin, (getline_line _ _ _ Hl) by (by destruct body).
  rewrite decide_True by (by apply to_int_length).
  unfold prog_bind at 1. unfold reverse_line at 1.
  change (input_line_buffer (set_input_file _ (set_buffer ?b _))) with (Some b).
  destruct (store_line_tail (input_line_buffer m) (body ++ [NL])) as [tail Hstore].
  unfold after_line. rewrite Hstore.
  rewrite drop_app_length, spec_reverse_terminated.
  rewrite <- (app_assoc body [NL]). simpl ([NL] ++ _).
  rewrite reverse_mem_newline by done.
  unfold prog_bind, output_line.
  change (input_line_buffer (set_block ?b _)) with (Some b).
  change (output_file (set_block _ (set_input_file _ (set_buffer _ ?x)))) with (output_file x).
  replace (output_file match input_line_buffer m with Some _ => m | None => log Allocated m end)
    with (Some fout) by (by destruct (input_line_buffer m)).
  rewrite <- (app_assoc (reverse body) [NL]). simpl ([NL] ++ _).
  change (reverse body ++ NL :: NUL :: tail) with (reverse body ++ [NL] ++ NUL :: tail).
  rewrite (app_assoc (reverse body) [NL]).
  by rewrite c_string_until_nul.
Qed.

Lemma after_line_input (fin fout : FILE) (l : list ascii) (m : machine) :
  input_file (after_line E fin fout l m) = Some (advance (length l) fin).
Proof. unfold after_line, fprintf_s. by destruct (accepted _ _ _). Qed.

Lemma after_line_output (fin fout : FILE) (l : list ascii) (m : machine) :
  output_file m = Some fout ->
  exists fout', output_file (after_line E fin fout l m) = Some fout'
    /\ f_path fout' = f_path fout
    /\ f_err fout'
       = f_err fout || negb (accepted E (contents m (f_path fout)) (until_nul (spec_reverse l))).
Proof.
  intros Hout. unfold after_line, fprintf_s.
  set (m2 := set_block _ _).
  assert (Hm2 : contents m2 (f_path fout) = contents m (f_path fout)).
  { unfold contents, m2. simpl. by destruct (input_line_buffer m). }
  rewrite Hm2. destruct (accepted _ _ _); simpl.
  - exists fout. rewrite orb_false_r. by destruct (input_line_buffer m).
  - by eexists.
Qed.

Lemma after_line_files (fin fout : FILE) (l : list ascii) (m : machine) (p : string) :
  p ≠ f_path fout ->
  files (after_line E fin fout l m) !! p = files m !! p.
Proof.
  intros Hp. unfold after_line, fprintf_s.
  destruct (accepted _ _ _); simpl.
  - rewrite lookup_insert_ne by done. by destruct (input_line_buffer m).
  - by destruct (input_line_buffer m).
Qed.

Lemma after_line_contents (fin fout : FILE) (l : list ascii) (m : machine) :
  contents (after_line E fin fout l m) (f_path fout)
  = written E (contents m (f_path fout)) [l].
Proof.
  unfold after_line, fprintf_s.
  set (m2 := set_block _ _).
  assert (Hm2 : contents m2 (f_path fout) = contents m (f_path fout)).
  { unfold contents, m2. simpl. by destruct (input_line_buffer m). }
  rewrite Hm2. simpl. destruct (accepted _ _ _); [|done].
  unfold contents. simpl. by rewrite lookup_insert_eq.
Qed.

Lemma after_line_stderr (fin fout : FILE) (l : list ascii) (m : machine) :
  stderr (after_line E fin fout l m) = stderr m.
Proof.
  unfold after_line, fprintf_s.
  destruct (accepted _ _ _); simpl; by destruct (input_line_buffer m).
Qed.

Lemma after_line_events (fin fout : FILE) (l : list ascii) (m : machine) (base : list event) :
  events m = base ++ alloc_log m ->
  events (after_line E fin fout l m) = base ++ alloc_log (after_line E fin fout l m).
Proof.
  unfold after_line, fprintf_s, alloc_log.
  destruct (accepted _ _ _); simpl; destruct (input_line_buffer m); simpl; intros ->;
    by rewrite <- ?app_assoc.
Qed.

Lemma main_loop_spec (fuel : nat) (m : machine) (fin fout : FILE) :
  input_file m = Some fin ->
  output_file m = Some fout ->
  f_path fin ≠ f_path fout ->
  Forall (fun l => terminated l /\ fits_int (length l))
    (split_lines (unread E (contents m (f_path fin)) (f_pos fin))) ->
  (length (unread E (contents m (f_path fin)) (f_pos fin)) < fuel)%nat ->
  exists m', main_loop E fuel m = Return tt m'
    /\ loop_post E m m' fin fout (split_lines (unread E (contents m (f_path fin)) (f_pos fin))).
Proof.
  revert m fin fout. induction fuel as [|fuel IH]; intros m fin fout Hin Hout Hne Hlines Hfuel;
    [lia|].
  destruct (unread E (contents m (f_path fin)) (f_pos fin)) as [|c rest'] eqn:Hrest.
  - (* end of input *)
    eexists. split.
    + cbn [main_loop]. unfold mbind, prog_bind, get_next_line.
      rewrite Hin, getline_end by done. rewrite to_int_eof.
      rewrite decide_False by (intros H; by apply H). reflexivity.
    + split; simpl; eauto.
      exists fout. by rewrite orb_false_r.
  - (* one more line *)
    rewrite <- Hrest in *.
    assert (Hnil : unread E (contents m (f_path fin)) (f_pos fin) ≠ []) by (by rewrite Hrest).
    rewrite split_lines_unfold in Hlines |- * by done.
    set (l := take_line (unread E (contents m (f_path fin)) (f_pos fin))) in *.
    apply Forall_cons in Hlines as [[Hterm Hfit] Hlines].
    destruct (terminated_take_line _ Hterm) as (body & Hbody & Hnl). fold l in Hbody.
    set (m3 := after_line E fin fout l m).
    assert (Hunread : unread E (contents m3 (f_path fin)) (f_pos fin + length l)
                      = drop (length l) (unread E (contents m (f_path fin)) (f_pos fin))).
    { unfold unread, contents, m3. rewrite after_line_files by done.
      rewrite drop_drop. reflexivity. }
    destruct (after_line_output fin fout l m Hout) as (fout' & Hout' & Hpath & Herr).
    destruct (IH m3 (advance (length l) fin) fout') as (m' & Hrun & Hpost).
    + apply after_line_input.
    + done.
    + simpl. congruence.
    + simpl. by rewrite Hunread.
    + simpl. rewrite Hunread, length_drop.
      assert (length l ≠ 0)%nat by (rewrite Hbody, length_app; simpl; lia).
      apply (f_equal length) in Hrest. simpl in Hrest.
      clearbody l m3. lia.
    + exists m'. split.
      * rewrite Hbody in Hfit. unfold l in Hbody.
        rewrite (main_loop_step fuel m fin fout body Hin Hout Hbody Hnl Hfit).
        fold l in Hbody. rewrite <- Hbody. exact Hrun.
      * destruct Hpost as [(fin' & Hi & Hpi & Herri) (fout'' & Ho & Hpo & Herro) Hw Hf Hs He].
        simpl in *. rewrite Hunread in Hw, Herro. rewrite Hpath in *.
        assert (Hc3 : contents m3 (f_path fin) = contents m (f_path fin)).
        { unfold contents, m3. by rewrite after_line_files. }
        assert (Hc4 : contents m3 (f_path fout)
                      = written E (contents m (f_path fout)) [l]).
        { unfold m3. apply after_line_contents. }
        split.
        -- exists fin'. by rewrite <- Hc3.
        -- exists fout''. split; [done|]. split; [done|].
           rewrite Herro, Herr, Hc4. simpl.
           destruct (accepted E (contents m (f_path fout)) (until_nul (spec_reverse l)));
             simpl; [by rewrite orb_false_r | by rewrite orb_true_r].
        -- rewrite Hw. unfold m3. by rewrite after_line_contents.
        -- intros p Hp. rewrite Hf by done. by apply after_line_files.
        -- rewrite Hs. apply after_line_stderr.
        -- intros base Hbase. apply He. by apply after_line_events.
Qed.

End Loop.

(** ** [main] *)

Section Main.
Variable E : env.

Lemma length_served (content : list ascii) :
  (length (served E content) <= length content)%nat.
Proof. unfold served. destruct (read_fault E); [rewrite length_take|]; lia. Qed.

Lemma held_balanced (inp outp : string) (alloc : list event) :
  alloc = [] \/ alloc = [Allocated] ->
  held_after [] (([Opened inp; Opened outp] ++ alloc) ++ [Closed inp; Closed outp]
                 ++ (if alloc is [] then [] else [Freed])) = [].
Proof.
  intros [-> | ->]; simpl; repeat (case_decide; simplify_eq/=); done.
Qed.

Lemma bind_return {A B} (c : prog A) (k : A -> prog B) (m m' : machine) (a : A) :
  c m = Return a m' -> (c ≫= k) m = k a m'.
Proof. intros H. unfold mbind, prog_bind. by rewrite H. Qed.

Lemma bind_exit {A B} (c : prog A) (k : A -> prog B) (m m' : machine) (status : Z) :
  c m = Exit status m' -> (c ≫= k) m = Exit status m'.
Proof. intros H. unfold mbind, prog_bind. by rewrite H. Qed.

Lemma open_input (m : machine) (inp : string) :
  open E InputFile inp "r" m =
    if can_read E (files m) inp
    then Return tt (set_input_file (Some (fresh inp)) (log (Opened inp) m))
    else EXIT_ERR (eprint ("Error opening file: " +:+ inp +:+ newline) (set_input_file None m)).
Proof.
  unfold open, fopen. rewrite decide_True by done.
  by destruct (can_read E (files m) inp).
Qed.

Lemma open_output (m : machine) (outp : string) :
  open E OutputFile outp "w" m =
    if may_write E outp
    then Return tt (set_output_file (Some (fresh outp))
                      (log (Opened outp) (set_contents outp [] m)))
    else EXIT_ERR (eprint ("Error opening file: " +:+ outp +:+ newline) (set_output_file None m)).
Proof.
  unfold open, fopen. rewrite decide_False by done. rewrite decide_True by done.
  by destruct (may_write E outp).
Qed.

Lemma cleanup_streams (m : machine) (fin fout : FILE) :
  input_file m = Some fin -> output_file m = Some fout ->
  cleanup m = Return tt (match input_line_buffer m with
                         | Some _ => free (fclose fout (fclose fin m))
                         | None => fclose fout (fclose fin m)
                         end).
Proof.
  intros Hi Ho. unfold cleanup. rewrite Hi. simpl. rewrite Ho. simpl.
  by destruct (input_line_buffer m).
Qed.

Lemma main_two_args (program inp outp : string) (m : machine) :
  main E program [inp; outp] m =
    (open E InputFile inp "r" ;; open E OutputFile outp "w" ;;
     (fun m => main_loop E (loop_fuel m) m) ;; EXIT_SUCC) m.
Proof. reflexivity. Qed.

Lemma main_runs (program inp outp : string) (fs : gmap string (list ascii))
    (content : list ascii) :
  may_read E inp = true -> may_write E outp = true -> inp ≠ outp ->
  fs !! inp = Some content ->
  Forall (fun l => terminated l /\ fits_int (length l)) (split_lines (served E content)) ->
  exists m', main E program [inp; outp] (boot fs) = Exit 0 m'
    /\ contents m' outp = written E [] (split_lines (served E content))
    /\ (forall p, p ≠ outp -> files m' !! p = fs !! p)
    /\ stderr m' = ""%string
    /\ held m' = []
    /\ stream_error (input_file m') = read_fails E content
    /\ stream_error (output_file m') = refused E [] (split_lines (served E content)).
Proof.
  intros Hr Hw Hne Hfs Hlines.
  set (m1 := set_input_file (Some (fresh inp)) (log (Opened inp) (boot fs))).
  set (m2 := set_output_file (Some (fresh outp)) (log (Opened outp) (set_contents outp [] m1))).
  assert (Hc2 : contents m2 inp = content).
  { unfold contents, m2, m1. simpl. rewrite lookup_insert_ne by done. by rewrite Hfs. }
  assert (Hc3 : contents m2 outp = []).
  { unfold contents, m2, m1. simpl. by rewrite lookup_insert_eq. }
  assert (Hu : unread E (contents m2 inp) 0 = served E content).
  { rewrite Hc2. unfold unread. by rewrite drop_0. }
  destruct (main_loop_spec E (loop_fuel m2) m2 (fresh inp) (fresh outp)) as (m' & Hrun & Hpost);
    try done.
  - change (f_path (fresh inp)) with inp. change (f_pos (fresh inp)) with 0%nat.
    by rewrite Hu.
  - change (f_path (fresh inp)) with inp. change (f_pos (fresh inp)) with 0%nat.
    rewrite Hu. change (loop_fuel m2) with (S (length (contents m2 inp))).
    rewrite Hc2. pose proof (length_served content). lia.
  - change (f_path (fresh inp)) with inp in Hpost. change (f_pos (fresh inp)) with 0%nat in Hpost.
    change (f_path (fresh outp)) with outp in Hpost.
    rewrite Hu in Hpost.
    destruct Hpost as [(fin' & Hi & Hpi & Hei) (fout' & Ho & Hpo & Heo) Hwr Hf Hs He].
    change (f_path (fresh inp)) with inp in *. change (f_path (fresh outp)) with outp in *.
    change (f_err (fresh inp)) with false in Hei. change (f_err (fresh outp)) with false in Heo.
    rewrite Hc3 in Hwr, Heo. rewrite Hc2 in Hei. simpl in Hei, Heo.
    specialize (He [Opened inp; Opened outp] eq_refl).
    eexists. split; [|split; [|split; [|split; [|split; [|split]]]]].
    + rewrite main_two_args.
      rewrite (bind_return _ _ _ m1 tt)
        by (rewrite open_input; unfold can_read; simpl; by rewrite Hr, Hfs).
      rewrite (bind_return _ _ _ m2 tt) by (rewrite open_output; by rewrite Hw).
      rewrite (bind_return _ _ _ m' tt) by done.
      unfold EXIT_SUCC. rewrite (bind_return _ _ _ _ tt (cleanup_streams m' _ _ Hi Ho)).
      reflexivity.
    + rewrite <- Hwr. unfold contents. by destruct (input_line_buffer m').
    + intros p Hp. transitivity (files m' !! p); [by destruct (input_line_buffer m')|].
      rewrite Hf by done. unfold m2, m1. simpl. by rewrite lookup_insert_ne.
    + transitivity (stderr m'); [by destruct (input_line_buffer m')|]. by rewrite Hs.
    + unfold held.
      replace (events _) with
        (([Opened inp; Opened outp] ++ alloc_log m') ++ [Closed inp; Closed outp]
           ++ (if alloc_log m' is [] then [] else [Freed])).
      * apply held_balanced. unfold alloc_log. destruct (input_line_buffer m'); auto.
      * unfold alloc_log in *. unfold free, fclose.
        destruct (input_line_buffer m'); simpl; rewrite He, Hpi, Hpo;
          by rewrite <- ?app_assoc.
    + transitivity (stream_error (input_file m')); [by destruct (input_line_buffer m')|].
      by rewrite Hi.
    + transitivity (stream_error (output_file m')); [by destruct (input_line_buffer m')|].
      by rewrite Ho.
Qed.
End Main.

(** ** The scenarios of the specification, run *)

(** Scenario 1: ["hello\nworld\n"] gives ["olleh\ndlrow\n"]. *)
Example scenario_1 :
  exists m', run (plain_env NUL) hello_world = Exit 0 m'
    /\ contents m' "out" = chars "olleh" ++ [NL] ++ chars "dlrow" ++ [NL].
Proof. eexists. split; vm_compute; reflexivity. Qed.

(** Scenario 2: ["a\n\nbc\n"], whose middle line is empty, gives
    ["a\n\ncb\n"]. *)
Example scenario_2 :
  exists m', run (plain_env NUL) (chars "a" ++ [NL; NL] ++ chars "bc" ++ [NL]) = Exit 0 m'
    /\ contents m' "out" = chars "a" ++ [NL; NL] ++ chars "cb" ++ [NL].
Proof. eexists. split; vm_compute; reflexivity. Qed.

(** Scenario 4: an empty input file gives an empty output file and exit
    status 0; the line buffer was never allocated. *)
Example scenario_4 :
  exists m', run (plain_env NUL) [] = Exit 0 m'
    /\ files m' !! "out"%string = Some []
    /\ events m' = [Opened "in"; Opened "out"; Closed "in"; Closed "out"].
Proof. eexists. split; [|split]; vm_compute; reflexivity. Qed.

(** The same path given twice: opening it for writing empties it before the
    first line is read, so nothing is reversed. *)
Example same_path_twice :
  exists m', main (plain_env NUL) "reverse" ["in"; "in"]%string (boot (fs1 hello_world))
             = Exit 0 m'
    /\ files m' !! "in"%string = Some [].
Proof. eexists. split; vm_compute; reflexivity. Qed.

(** * The claims of the specification *)

(** ** C1: one reversed output line per input line, in order *)

(** C1, as the code has it.  A run on two different paths that both open,
    on a system without read or write faults, whose input file holds no NUL
    byte, only lines that end in a newline, and fewer than [UINT_MAX] bytes,
    exits with status 0; the output file then holds the reversed lines one
    after the other, so it has exactly one line per input line, in the same
    order, and its i-th line is the reversal (newline held in place) of the
    i-th input line. *)
Theorem lines_reversed_in_order (E : env) (program inp outp : string)
    (fs : gmap string (list ascii)) (content : list ascii) :
  may_read E inp = true -> may_write E outp = true -> inp ≠ outp ->
  read_fault E = None -> disk_quota E = None ->
  fs !! inp = Some content ->
  NUL ∉ content ->
  Forall terminated (split_lines content) ->
  fits_int (length content) ->
  exists m', main E program [inp; outp] (boot fs) = Exit 0 m'
    /\ contents m' outp = concat (spec_reverse <$> split_lines content)
    /\ split_lines (contents m' outp) = spec_reverse <$> split_lines content.
Proof.
  intros Hr Hw Hne Hrf Hq Hfs Hnul Hterm Hfit.
  assert (Hserved : served E content = content) by (unfold served; by rewrite Hrf).
  destruct (main_runs E program inp outp fs content) as (m' & Hrun & Hout & _); try done.
  { rewrite Hserved. apply Forall_forall. intros l Hl. split.
    - by eapply Forall_forall in Hterm.
    - pose proof (split_lines_length _ _ Hl). unfold fits_int in *. lia. }
  rewrite Hserved in Hout.
  rewrite written_plain in Hout; [|done|].
  2:{ apply Forall_forall. intros l Hl Hin. apply Hnul. by eapply split_lines_elem. }
  exists m'. split; [done|]. split; [done|].
  rewrite Hout. apply split_lines_concat.
  apply Forall_fmap, Forall_forall. intros l Hl. simpl.
  pose proof (split_lines_terminated content) as Hshape.
  eapply Forall_forall in Hshape; [|done]. eapply Forall_forall in Hterm; [|done].
  destruct (Hshape Hterm) as (body & -> & Hbody).
  exists (reverse body). split; [apply spec_reverse_terminated|].
  by apply not_elem_of_reverse.
Qed.

Lemma lines_reversed_in_order_witness :
  exists m', run (plain_env NUL) hello_world = Exit 0 m'
    /\ contents m' "out" = concat (spec_reverse <$> split_lines hello_world)
    /\ split_lines (contents m' "out") = spec_reverse <$> split_lines hello_world.
Proof.
  apply (lines_reversed_in_order (plain_env NUL) "reverse" "in" "out" (fs1 hello_world) hello_world).
  - reflexivity.
  - reflexivity.
  - discriminate.
  - reflexivity.
  - reflexivity.
  - vm_compute. reflexivity.
  - apply (bool_decide_unpack _). vm_compute. exact I.
  - each_line.
  - vm_compute. reflexivity.
Defined.

(** C1 as stated fails on an input line that holds a NUL byte: the line
    ["a\0b\n"] is reversed to ["b\0a\n"] in the buffer, of which [%s] prints
    ["b"] only. *)
Lemma nul_truncates_output :
  exists m', run (plain_env NUL) nul_text = Exit 0 m'
    /\ contents m' "out" = chars "b"
    /\ spec_reverse <$> split_lines nul_text = [nul_line]
    /\ split_lines (contents m' "out") ≠ spec_reverse <$> split_lines nul_text.
Proof.
  eexists. split; [vm_compute; reflexivity|].
  split; [vm_compute; reflexivity|]. split; [vm_compute; reflexivity|].
  vm_compute. discriminate.
Qed.

(** ** C2: reversing twice *)

(** C2 at the input ["noeol"], the last line of a file that does not end in
    a newline, read into a fresh block that holds no newline: the scan of
    [reverse_line] leaves the block, so reversing (once or twice) does not
    give the line back. *)
Theorem reverse_twice_noeol :
  reverse_line (holding noeol_block) = Fault
  /\ (reverse_line ;; reverse_line) (holding noeol_block) = Fault.
Proof. split; vm_compute; reflexivity. Qed.

(** ** C3: a last line without a newline *)

(** C3 at the input file ["noeol"].  When the fresh block holds no newline
    the scan of [reverse_line] leaves the block; when the heap holds
    newlines the byte behind the terminator stops the scan, the terminator
    is swapped to the front of the block and nothing is written.  The output
    is not ["loeon"] in either run. *)
Theorem noeol_not_reversed :
  run (plain_env NUL) (chars "noeol") = Fault
  /\ (exists m', run (plain_env NL) (chars "noeol") = Exit 0 m' /\ contents m' "out" = []).
Proof.
  split; [vm_compute; reflexivity|].
  eexists. split; vm_compute; reflexivity.
Qed.

(** ** C4: the scan stays inside the line *)

(** C4 at the line ["noeol"]: whatever the allocator does and whatever the
    block held before, the scan of [reverse_line] reads the five bytes of
    the line, then offset 5 (the terminator) and offset 6 (a byte [getline]
    never wrote, or the first byte behind the block). *)
Theorem scan_reads_past_noeol (E : env) (block : option (list ascii)) :
  exists more,
    scan_reads (store_line E block (chars "noeol")) = [0; 1; 2; 3; 4; 5; 6]%nat ++ more.
Proof.
  destruct (store_line_tail E block (chars "noeol")) as [rest ->].
  apply (scan_reads_unterminated (chars "noeol") rest).
  apply (bool_decide_unpack _). vm_compute. exact I.
Qed.

(** ** C5: lines without content *)

(** C5.  A line without content characters, with both streams open.
    - The line is just a newline: [get_next_line] delivers it,
      [reverse_line] is a no-op (it returns the machine it was given, the
      block still beginning with the newline and its terminator) and, the
      device accepting the write, [output_line] appends exactly the newline
      to the output file and changes nothing else; the loop goes on with
      what follows.
    - The empty line with no newline: [getline] never delivers a line of
      length 0, so this is the input with no byte left.  [get_next_line]
      returns [END_OF_INPUT] and the loop ends there with every file as it
      was: nothing is reversed and nothing is written. *)
Theorem newline_only_line (E : env) (fuel : nat) (m : machine) (fin fout : FILE) :
  input_file m = Some fin ->
  output_file m = Some fout ->
  (take_line (unread E (contents m (f_path fin)) (f_pos fin)) = [NL] ->
   accepted E (contents m (f_path fout)) [NL] = true ->
   exists n m1 m2 tail,
     get_next_line E m = Return n m1 /\ n ≠ END_OF_INPUT
     /\ input_line_buffer m1 = Some (NL :: NUL :: tail)
     /\ reverse_line m1 = Return tt m1
     /\ output_line E m1 = Return tt m2
     /\ m2 = set_contents (f_path fout) (contents m (f_path fout) ++ [NL]) m1
     /\ contents m2 (f_path fout) = contents m (f_path fout) ++ [NL]
     /\ (forall p, p ≠ f_path fout -> files m2 !! p = files m !! p)
     /\ main_loop E (S fuel) m = main_loop E fuel m2)
  /\ (unread E (contents m (f_path fin)) (f_pos fin) = [] ->
      exists m1,
        get_next_line E m = Return END_OF_INPUT m1
        /\ main_loop E (S fuel) m = Return tt m1
        /\ files m1 = files m /\ stderr m1 = stderr m).
Proof.
  intros Hin Hout. split.
  - intros Hl Hacc.
    destruct (store_line_tail E (input_line_buffer m) [NL]) as [tail Hstore].
    simpl ([NL] ++ _) in Hstore.
    set (m1 := set_input_file (Some (advance 1 fin))
                 (set_buffer (NL :: NUL :: tail)
                    match input_line_buffer m with Some _ => m | None => log Allocated m end)).
    assert (Hget : get_next_line E m = Return (to_int 1) m1).
    { unfold get_next_line. rewrite Hin, (getline_line E _ _ _ Hl) by done.
      by rewrite Hstore. }
    assert (Hfiles : files m1 = files m) by (unfold m1; simpl; by destruct (input_line_buffer m)).
    assert (Hout1 : output_file m1 = Some fout)
      by (unfold m1; simpl; by destruct (input_line_buffer m)).
    assert (Hrev : reverse_line m1 = Return tt m1).
    { unfold reverse_line. simpl input_line_buffer.
      pose proof (reverse_mem_newline [] (NUL :: tail) (not_elem_of_nil NL)) as Hrev.
      simpl in Hrev. lazy beta iota. rewrite Hrev. reflexivity. }
    assert (Hbuf : input_line_buffer m1 = Some (NL :: NUL :: tail)) by reflexivity.
    clearbody m1.
    set (m2 := set_contents (f_path fout) (contents m (f_path fout) ++ [NL]) m1).
    assert (Hput : output_line E m1 = Return tt m2).
    { unfold output_line. rewrite Hbuf, Hout1. simpl c_string.
      unfold fprintf_s, contents. rewrite Hfiles.
      fold (contents m (f_path fout)). by rewrite Hacc. }
    exists (to_int 1), m1, m2, tail.
    split; [done|]. split; [by apply (to_int_length 1)|].
    split; [done|]. split; [done|]. split; [done|]. split; [done|].
    split; [|split].
    + unfold contents at 1, m2. simpl. by rewrite lookup_insert_eq.
    + intros p Hp. unfold m2. simpl. rewrite lookup_insert_ne by done. by rewrite Hfiles.
    + cbn [main_loop]. rewrite (bind_return _ _ _ m1 _ Hget).
      rewrite decide_True by (by apply (to_int_length 1)).
      rewrite (bind_return _ _ _ m1 tt Hrev). by rewrite (bind_return _ _ _ m2 tt Hput).
  - intros Hnil. eexists.
    assert (Hget : get_next_line E m
                   = Return END_OF_INPUT
                       (set_input_file
                          (Some (flag_error (read_fails E (contents m (f_path fin))) fin)) m)).
    { unfold get_next_line. by rewrite Hin, getline_end. }
    split; [exact Hget|]. split; [|done].
    cbn [main_loop]. rewrite (bind_return _ _ _ _ _ Hget).
    rewrite decide_False by (intros H; by apply H). reflexivity.
Qed.

Lemma newline_only_line_witness :
  (exists n m1 m2 tail,
     get_next_line (plain_env NUL) (reading [NL]) = Return n m1 /\ n ≠ END_OF_INPUT
     /\ input_line_buffer m1 = Some (NL :: NUL :: tail)
     /\ reverse_line m1 = Return tt m1
     /\ output_line (plain_env NUL) m1 = Return tt m2
     /\ m2 = set_contents "out" (contents (reading [NL]) "out" ++ [NL]) m1
     /\ contents m2 "out" = contents (reading [NL]) "out" ++ [NL]
     /\ (forall p, p ≠ "out"%string -> files m2 !! p = files (reading [NL]) !! p)
     /\ main_loop (plain_env NUL) 2 (reading [NL]) = main_loop (plain_env NUL) 1 m2)
  /\ (exists m1,
        get_next_line (plain_env NUL) (reading []) = Return END_OF_INPUT m1
        /\ main_loop (plain_env NUL) 1 (reading []) = Return tt m1
        /\ files m1 = files (reading []) /\ stderr m1 = stderr (reading [])).
Proof.
  split.
  - exact (proj1 (newline_only_line (plain_env NUL) 1 (reading [NL]) (fresh "in") (fresh "out")
                    eq_refl eq_refl) eq_refl eq_refl).
  - exact (proj2 (newline_only_line (plain_env NUL) 0 (reading []) (fresh "in") (fresh "out")
                    eq_refl eq_refl) eq_refl).
Defined.

(** ** C6: the line is written as reversed *)

(** C6, as the code has it.  When the block holds a line without NUL bytes
    followed by its terminator, and the device accepts the write,
    [output_line] appends exactly the bytes of the line to the output file
    and changes nothing else. *)
Theorem output_line_writes_line (E : env) (m : machine) (fout : FILE)
    (line rest : list ascii) :
  input_line_buffer m = Some (line ++ NUL :: rest) ->
  output_file m = Some fout ->
  NUL ∉ line ->
  accepted E (contents m (f_path fout)) line = true ->
  exists m', output_line E m = Return tt m'
    /\ contents m' (f_path fout) = contents m (f_path fout) ++ line
    /\ m' = set_contents (f_path fout) (contents m (f_path fout) ++ line) m.
Proof.
  intros Hbuf Hout Hnul Hacc. eexists. split; [|split; [|reflexivity]].
  - unfold output_line. rewrite Hbuf, Hout, c_string_terminated by done.
    unfold fprintf_s. by rewrite Hacc.
  - unfold contents at 1. simpl. by rewrite lookup_insert_eq.
Qed.

Lemma output_line_writes_line_witness :
  exists m', output_line (plain_env NUL) (holding (olleh ++ NUL :: chars "xyz")) = Return tt m'
    /\ contents m' "out" = contents (holding (olleh ++ NUL :: chars "xyz")) "out" ++ olleh
    /\ m' = set_contents "out" (contents (holding (olleh ++ NUL :: chars "xyz")) "out" ++ olleh)
              (holding (olleh ++ NUL :: chars "xyz")).
Proof.
  apply (output_line_writes_line (plain_env NUL) (holding (olleh ++ NUL :: chars "xyz"))
           (fresh "out") olleh (chars "xyz")).
  - reflexivity.
  - reflexivity.
  - apply (bool_decide_unpack _). vm_compute. exact I.
  - reflexivity.
Defined.

(** C6 as stated fails for a line that holds a NUL byte: of ["b\0a\n"] only
    ["b"] is written. *)
Lemma output_line_stops_at_nul :
  exists m', output_line (plain_env NUL) (holding (nul_line ++ [NUL])) = Return tt m'
    /\ contents m' "out" = chars "b"
    /\ contents m' "out" ≠ nul_line.
Proof.
  eexists. split; [vm_compute; reflexivity|]. split; [vm_compute; reflexivity|].
  vm_compute. discriminate.
Qed.

(** ** C7: usage errors *)

(** C7.  Called with any number of arguments other than two, the program
    prints the usage message on the error stream and exits with status 1;
    the file system is what it was and no stream was ever opened. *)
Theorem usage_error (E : env) (program : string) (args : list string)
    (fs : gmap string (list ascii)) :
  length args ≠ 2%nat ->
  exists m', main E program args (boot fs) = Exit 1 m'
    /\ stderr m' = ("Usage: " +:+ program +:+ " [in-file] [out-file]" +:+ newline)%string
    /\ files m' = fs
    /\ events m' = [].
Proof.
  intros Hargs. eexists. split; [|split; [|split]].
  - unfold main.
    replace (Z.of_nat (length (program :: args)) =? 3)%Z with false
      by (symmetry; apply Z.eqb_neq; simpl length; lia).
    reflexivity.
  - reflexivity.
  - reflexivity.
  - reflexivity.
Qed.

Lemma usage_error_witness :
  exists m', main (plain_env NUL) "reverse" ["in"]%string (boot (fs1 hello_world)) = Exit 1 m'
    /\ stderr m' = ("Usage: reverse [in-file] [out-file]" +:+ newline)%string
    /\ files m' = fs1 hello_world
    /\ events m' = [].
Proof.
  apply (usage_error (plain_env NUL) "reverse" ["in"%string] (fs1 hello_world)).
  simpl. lia.
Defined.

(** ** C8: files that cannot be opened *)

(** C8.  When the input or the output path cannot be opened, the program
    prints an error message that names the failing path on the error stream
    and exits with status 1; the input stream, if it was opened, is closed
    again, and the file system is what it was: no output file was created
    or truncated. *)
Theorem open_failure (E : env) (program inp outp : string) (fs : gmap string (list ascii)) :
  can_read E fs inp && may_write E outp = false ->
  exists m', main E program [inp; outp] (boot fs) = Exit 1 m'
    /\ stderr m' = ("Error opening file: "
                    +:+ (if can_read E fs inp then outp else inp) +:+ newline)%string
    /\ events m' = (if can_read E fs inp then [Opened inp; Closed inp] else [])
    /\ held m' = []
    /\ files m' = fs.
Proof.
  intros Hfail. rewrite main_two_args.
  destruct (can_read E fs inp) eqn:Hin.
  - simpl in Hfail.
    eexists. split; [|split; [|split; [|split]]].
    + rewrite (bind_return _ _ _ _ tt) by (rewrite open_input; simpl; by rewrite Hin).
      apply bind_exit. rewrite open_output, Hfail. reflexivity.
    + reflexivity.
    + reflexivity.
    + unfold held. simpl. by rewrite decide_True.
    + reflexivity.
  - eexists. split; [|split; [|split; [|split]]].
    + apply bind_exit. rewrite open_input. simpl. rewrite Hin. reflexivity.
    + reflexivity.
    + reflexivity.
    + reflexivity.
    + reflexivity.
Qed.

Lemma open_failure_witness :
  (exists m', main (plain_env NUL) "reverse" ["missing"; "out"]%string (boot ∅) = Exit 1 m'
     /\ stderr m' = ("Error opening file: missing" +:+ newline)%string
     /\ events m' = []
     /\ held m' = []
     /\ files m' = ∅)
  /\ (exists m', main (locked NUL) "reverse" ["in"; "out"]%string (boot (fs1 hello_world))
                 = Exit 1 m'
     /\ stderr m' = ("Error opening file: out" +:+ newline)%string
     /\ events m' = [Opened "in"; Closed "in"]
     /\ held m' = []
     /\ files m' = fs1 hello_world).
Proof.
  split.
  - exact (open_failure (plain_env NUL) "reverse" "missing" "out" ∅ eq_refl).
  - exact (open_failure (locked NUL) "reverse" "in" "out" (fs1 hello_world) eq_refl).
Defined.

(** ** C9: read and write failures inside the loop *)

(** C9, as the code has it.  Whatever read or write faults the system has,
    a run on two different paths that both open, in which every line the
    input device delivers ends in a newline and is shorter than [UINT_MAX]
    bytes, exits with status 0 with every stream closed and the buffer
    freed.  A read that failed and a write that was refused show in the
    error indicators of the streams and nowhere else; the output file holds
    what the accepted writes put there. *)
Theorem io_failure_not_detected (E : env) (program inp outp : string)
    (fs : gmap string (list ascii)) (content : list ascii) :
  may_read E inp = true -> may_write E outp = true -> inp ≠ outp ->
  fs !! inp = Some content ->
  Forall (fun l => terminated l /\ fits_int (length l)) (split_lines (served E content)) ->
  exists m', main E program [inp; outp] (boot fs) = Exit 0 m'
    /\ stream_error (input_file m') = read_fails E content
    /\ stream_error (output_file m') = refused E [] (split_lines (served E content))
    /\ held m' = []
    /\ contents m' outp = written E [] (split_lines (served E content)).
Proof.
  intros Hr Hw Hne Hfs Hlines.
  destruct (main_runs E program inp outp fs content)
    as (m' & Hrun & Hout & _ & _ & Hheld & Hin_err & Hout_err); try done.
  by exists m'.
Qed.

Lemma io_failure_not_detected_witness :
  (read_fails (broken_input 6) hello_world = true
   /\ exists m', run (broken_input 6) hello_world = Exit 0 m'
     /\ stream_error (input_file m') = read_fails (broken_input 6) hello_world
     /\ stream_error (output_file m')
        = refused (broken_input 6) [] (split_lines (served (broken_input 6) hello_world))
     /\ held m' = []
     /\ contents m' "out"
        = written (broken_input 6) [] (split_lines (served (broken_input 6) hello_world)))
  /\ (refused (full_disk 8) [] (split_lines (served (full_disk 8) hello_world)) = true
   /\ exists m', run (full_disk 8) hello_world = Exit 0 m'
     /\ stream_error (input_file m') = read_fails (full_disk 8) hello_world
     /\ stream_error (output_file m')
        = refused (full_disk 8) [] (split_lines (served (full_disk 8) hello_world))
     /\ held m' = []
     /\ contents m' "out"
        = written (full_disk 8) [] (split_lines (served (full_disk 8) hello_world))).
Proof.
  split; (split; [vm_compute; reflexivity|]).
  - apply (io_failure_not_detected (broken_input 6) "reverse" "in" "out"
             (fs1 hello_world) hello_world).
    + reflexivity.
    + reflexivity.
    + discriminate.
    + vm_compute. reflexivity.
    + each_line.
  - apply (io_failure_not_detected (full_disk 8) "reverse" "in" "out"
             (fs1 hello_world) hello_world).
    + reflexivity.
    + reflexivity.
    + discriminate.
    + vm_compute. reflexivity.
    + each_line.
Defined.

(** C9 as stated fails: a read that fails after the first line, and a write
    the device refuses, both end in exit status 0, with the error indicator
    of the stream set and only the first line in the output file. *)
Lemma io_failure_exits_zero :
  (exists m', run (broken_input 6) hello_world = Exit 0 m'
     /\ stream_error (input_file m') = true
     /\ contents m' "out" = chars "olleh" ++ [NL])
  /\ (exists m', run (full_disk 8) hello_world = Exit 0 m'
     /\ stream_error (output_file m') = true
     /\ contents m' "out" = chars "olleh" ++ [NL]).
Proof.
  split; eexists; (split; [vm_compute; reflexivity|]); split; vm_compute; reflexivity.
Qed.

(** ** C10: what [reverse_line] leaves alone *)

(** C10.  When the block holds a newline, [reverse_line] changes nothing but
    the bytes of the block before the first newline, which it permutes (it
    reverses them); the first newline and every byte behind it stay. *)
Theorem reverse_line_frame (m : machine) (pre post : list ascii) :
  input_line_buffer m = Some (pre ++ NL :: post) ->
  NL ∉ pre ->
  exists pre', reverse_line m = Return tt (set_block (pre' ++ NL :: post) m)
    /\ pre' ≡ₚ pre /\ pre' = reverse pre.
Proof.
  intros Hbuf Hpre. exists (reverse pre). split; [|split; [|done]].
  - unfold reverse_line. rewrite Hbuf. by rewrite reverse_mem_newline.
  - apply reverse_Permutation.
Qed.

Lemma reverse_line_frame_witness :
  exists pre', reverse_line (holding (chars "ab" ++ [NL] ++ chars "cd" ++ [NL; NUL]))
               = Return tt (set_block (pre' ++ NL :: chars "cd" ++ [NL; NUL])
                              (holding (chars "ab" ++ [NL] ++ chars "cd" ++ [NL; NUL])))
    /\ pre' ≡ₚ chars "ab" /\ pre' = reverse (chars "ab").
Proof.
  apply (reverse_line_frame (holding (chars "ab" ++ [NL] ++ chars "cd" ++ [NL; NUL]))
           (chars "ab") (chars "cd" ++ [NL; NUL])).
  - reflexivity.
  - apply (bool_decide_unpack _). vm_compute. exact I.
Defined.
(** * The rest of the code *)

(** ** Resources *)

Lemma held_after_app (h : list event) (evs1 evs2 : list event) :
  held_after h (evs1 ++ evs2) = held_after (held_after h evs1) evs2.
Proof.
  revert h. induction evs1 as [|e evs1 IH]; intros h; [done|].
  destruct e; simpl; apply IH.
Qed.

Lemma remove_first_elem (e : event) (l : list event) :
  e ∈ l -> l ≡ₚ e :: remove_first e l.
Proof.
  induction l as [|h l IH]; intros He; [by apply elem_of_nil in He|].
  simpl. destruct (decide (h = e)) as [->|Hne]; [done|].
  apply elem_of_cons in He as [->|He]; [done|].
  rewrite (IH He) at 1. apply perm_swap.
Qed.

Lemma remove_first_perm (e : event) (l l' : list event) :
  l ≡ₚ e :: l' -> remove_first e l ≡ₚ l'.
Proof.
  intros Hl. apply (Permutation_cons_inv (a := e)).
  rewrite <- remove_first_elem; [done|].
  rewrite Hl. apply elem_of_cons. by left.
Qed.

(** A machine that got one more event and the global that refers to it. *)
Lemma owned_log_closed (m : machine) (e : event) :
  held (log e m) = held_after (held m) [e].
Proof. unfold held. simpl. apply held_after_app. Qed.

(** [cleanup] releases what the globals refer to: when that is all the
    process holds, nothing is held afterwards, and neither the files nor the
    error stream change. *)
Lemma cleanup_owned (m : machine) :
  owned m ->
  exists m', cleanup m = Return tt m'
    /\ held m' = [] /\ files m' = files m /\ stderr m' = stderr m.
Proof.
  unfold owned, resources, cleanup. intros Hown.
  destruct (input_file m) as [fi|] eqn:Hi; simpl;
    destruct (output_file m) as [fo|] eqn:Ho; simpl;
    destruct (input_line_buffer m) as [mem|] eqn:Hb; simpl in *;
    eexists; (split; [reflexivity|]); (split; [|done]);
    unfold free, fclose; rewrite ?owned_log_closed; simpl;
    repeat match goal with
    | H : ?h ≡ₚ ?e :: ?l |- context [remove_first ?e ?h] =>
        apply remove_first_perm in H
    end;
    by apply Permutation_nil_r.
Qed.

Lemma owned_fprintf_s (E : env) (fout : FILE) (s : list ascii) (m : machine) :
  output_file m = Some fout -> owned m -> owned (fprintf_s E fout s m).
Proof.
  intros Hout. unfold fprintf_s, owned, held, resources.
  destruct (accepted _ _ _); simpl; [done|]. by rewrite Hout.
Qed.

Lemma owned_set_block (mem : list ascii) (m : machine) :
  is_Some (input_line_buffer m) -> owned m -> owned (set_block mem m).
Proof. intros [old Hold]. unfold owned, held, resources. simpl. by rewrite Hold. Qed.

Lemma owned_getline (E : env) (fin : FILE) (n : nat) (l : list ascii) (m : machine) :
  input_file m = Some fin ->
  owned m ->
  owned (set_input_file (Some (advance n fin))
           (set_buffer (store_line E (input_line_buffer m) l)
              match input_line_buffer m with Some _ => m | None => log Allocated m end)).
Proof.
  intros Hin. unfold owned, resources. rewrite Hin.
  destruct (input_line_buffer m) as [old|] eqn:Hold; simpl; [done|].
  intros Hown.
  change (held (set_input_file _ (set_buffer _ (log Allocated m))))
    with (held (log Allocated m)).
  rewrite owned_log_closed. simpl. rewrite Hown, app_nil_r.
  rewrite app_comm_cons. apply Permutation_cons_append.
Qed.

Lemma loop_frame_refl (m m' : machine) (fin fout fin' : FILE) :
  input_file m = Some fin -> output_file m = Some fout ->
  m' = set_input_file (Some fin') m -> f_path fin' = f_path fin ->
  loop_frame m m' fin fout.
Proof.
  intros Hin Hout -> Hpath. split; simpl; eauto.
  unfold owned, held, resources. simpl. by rewrite Hin, Hpath.
Qed.

Lemma loop_frame_trans (m1 m2 m3 : machine) (fin fout fin' fout' : FILE) :
  f_path fin' = f_path fin -> f_path fout' = f_path fout ->
  loop_frame m1 m2 fin fout -> loop_frame m2 m3 fin' fout' -> loop_frame m1 m3 fin fout.
Proof.
  intros Hpi Hpo [Hi1 Ho1 Hf1 Hx1 Hs1 Hw1] [Hi2 Ho2 Hf2 Hx2 Hs2 Hw2].
  rewrite Hpi in *. rewrite Hpo in *.
  split; try done.
  - intros p Hp. by rewrite Hf2, Hf1.
  - auto.
  - by rewrite Hs2.
  - auto.
Qed.

(** The machine after an iteration that read the line [l] and printed [s]
    of the block [mem']. *)
Lemma iteration_frame (E : env) (m : machine) (fin fout : FILE)
    (l mem' s : list ascii) :
  input_file m = Some fin -> output_file m = Some fout ->
  loop_frame m
    (fprintf_s E fout s
       (set_block mem'
          (set_input_file (Some (advance (length l) fin))
             (set_buffer (store_line E (input_line_buffer m) l)
                match input_line_buffer m with Some _ => m | None => log Allocated m end))))
    fin fout.
Proof.
  intros Hin Hout.
  set (m1 := set_input_file _ _).
  assert (Ho1 : output_file (set_block mem' m1) = Some fout).
  { unfold m1. simpl. by destruct (input_line_buffer m). }
  split.
  - exists (advance (length l) fin). split; [|done].
    unfold fprintf_s. by destruct (accepted _ _ _).
  - unfold fprintf_s. destruct (accepted _ _ _); simpl; [|by eexists].
    exists fout. split; [|done]. by destruct (input_line_buffer m).
  - intros p Hp. unfold fprintf_s. destruct (accepted _ _ _); simpl.
    + rewrite lookup_insert_ne by done. by destruct (input_line_buffer m).
    + by destruct (input_line_buffer m).
  - intros Hsome. unfold fprintf_s. destruct (accepted _ _ _); simpl.
    + by rewrite lookup_insert_eq.
    + by destruct (input_line_buffer m).
  - unfold fprintf_s. destruct (accepted _ _ _); simpl; by destruct (input_line_buffer m).
  - intros Hown. apply owned_fprintf_s; [done|].
    apply owned_set_block; [by eexists|]. by apply owned_getline.
Qed.

(** The loop on any input: it ends, in a fault or with both streams still
    open on their paths, no file but the output file changed, nothing
    printed on the error stream and the resources accounted for. *)
Lemma main_loop_frame (E : env) (fuel : nat) (m : machine) (fin fout : FILE) :
  input_file m = Some fin ->
  output_file m = Some fout ->
  f_path fin ≠ f_path fout ->
  (length (unread E (contents m (f_path fin)) (f_pos fin)) < fuel)%nat ->
  main_loop E fuel m = Fault
  \/ exists m', main_loop E fuel m = Return tt m' /\ loop_frame m m' fin fout.
Proof.
  revert m fin fout. induction fuel as [|fuel IH]; intros m fin fout Hin Hout Hne Hfuel; [lia|].
  remember (main_loop E (S fuel) m) as o eqn:Ho.
  cbn [main_loop] in Ho. unfold mbind, prog_bind at 1 in Ho. unfold get_next_line in Ho.
  rewrite Hin in Ho.
  destruct (unread E (contents m (f_path fin)) (f_pos fin)) as [|c rest'] eqn:Hrest.
  - rewrite getline_end in Ho by done. rewrite to_int_eof in Ho.
    rewrite decide_False in Ho by (intros H; by apply H).
    right. eexists. split; [exact Ho|]. by eapply loop_frame_refl.
  - rewrite <- Hrest in *.
    set (l := take_line (unread E (contents m (f_path fin)) (f_pos fin))) in *.
    assert (Hl : l ≠ []).
    { intros Hnil. apply take_line_nil in Hnil. by rewrite Hnil in Hrest. }
    rewrite (getline_line E fin m l eq_refl Hl) in Ho.
    set (m1 := set_input_file _ _) in Ho.
    destruct (decide (to_int (Z.of_nat (length l)) ≠ END_OF_INPUT)) as [Hgo|Hstop].
    2:{ right. exists m1. split; [done|].
        pose proof (iteration_frame E m fin fout l [] [] Hin Hout) as Hfr.
        destruct Hfr as [Hi Hou Hf Hx Hs Hw]. split.
        - by exists (advance (length l) fin).
        - exists fout. split; [|done]. unfold m1. simpl. by destruct (input_line_buffer m).
        - intros p Hp. unfold m1. simpl. by destruct (input_line_buffer m).
        - intros Hsome. unfold m1. simpl. by destruct (input_line_buffer m).
        - unfold m1. simpl. by destruct (input_line_buffer m).
        - intros Hown. by apply owned_getline. }
    unfold prog_bind at 1 in Ho. unfold reverse_line at 1 in Ho.
    change (input_line_buffer m1) with (Some (store_line E (input_line_buffer m) l)) in Ho.
    lazy beta iota in Ho.
    destruct (reverse_mem (store_line E (input_line_buffer m) l)) as [mem'|].
    2:{ by left. }
    unfold prog_bind at 1 in Ho. unfold output_line at 1 in Ho.
    change (input_line_buffer (set_block mem' m1)) with (Some mem') in Ho.
    lazy beta iota in Ho.
    assert (Ho1 : output_file (set_block mem' m1) = Some fout).
    { unfold m1. simpl. by destruct (input_line_buffer m). }
    rewrite Ho1 in Ho. destruct (c_string mem') as [s|]; [|by left].
    set (m3 := fprintf_s E fout s (set_block mem' m1)) in Ho.
    pose proof (iteration_frame E m fin fout l mem' s Hin Hout) as Hfr. fold m1 m3 in Hfr.
    destruct (frame_input _ _ _ _ Hfr) as (fin' & Hi3 & Hpi).
    destruct (frame_output _ _ _ _ Hfr) as (fout' & Ho3 & Hpo).
    assert (Hfin' : fin' = advance (length l) fin).
    { unfold m3, fprintf_s in Hi3. destruct (accepted _ _ _); simpl in Hi3; congruence. }
    subst fin'.
    assert (Hunread : unread E (contents m3 (f_path fin)) (f_pos fin + length l)
                      = drop (length l) (unread E (contents m (f_path fin)) (f_pos fin))).
    { unfold unread, contents. rewrite (frame_files _ _ _ _ Hfr) by done.
      by rewrite drop_drop. }
    destruct (IH m3 (advance (length l) fin) fout') as [Hfault|(m' & Hrun & Hfr')].
    + done.
    + done.
    + simpl. congruence.
    + simpl. rewrite Hunread, length_drop.
      assert (length l ≠ 0)%nat by (by destruct l).
      apply (f_equal length) in Hrest. simpl in Hrest. clearbody l m1 m3. lia.
    + left. by rewrite Ho.
    + right. exists m'. split; [by rewrite Ho|].
      by eapply (loop_frame_trans m m3 m' fin fout (advance (length l) fin) fout').
Qed.

(** ** Every run of [main] *)

Lemma two_args_or_not (args : list string) :
  length args ≠ 2%nat \/ exists inp outp, args = [inp; outp].
Proof.
  destruct args as [|inp [|outp [|x args]]]; simpl; try (left; lia).
  right. by exists inp, outp.
Qed.

Lemma opens_wrong_count (E : env) (fs : gmap string (list ascii)) (args : list string) :
  length args ≠ 2%nat -> opens E fs args = false.
Proof. by destruct args as [|inp [|outp [|x args]]]. Qed.

Lemma main_loop_end (E : env) (fuel : nat) (m : machine) (fin : FILE) :
  input_file m = Some fin ->
  unread E (contents m (f_path fin)) (f_pos fin) = [] ->
  main_loop E (S fuel) m
  = Return tt (set_input_file
                 (Some (flag_error (read_fails E (contents m (f_path fin))) fin)) m).
Proof.
  intros Hin Hrest. cbn [main_loop]. unfold mbind, prog_bind, get_next_line.
  rewrite Hin, getline_end by done. rewrite to_int_eof.
  by rewrite decide_False by (intros H; by apply H).
Qed.

(** How a run ends, for every command line, file system and environment. *)
Lemma main_outcome (E : env) (program : string) (args : list string)
    (fs : gmap string (list ascii)) :
  (exists st m', main E program args (boot fs) = Exit st m'
     /\ held m' = []
     /\ st = (if opens E fs args then 0 else 1)%Z
     /\ (stderr m' = ""%string <-> opens E fs args = true)
     /\ (forall p, p ≠ nth 1 args ""%string -> files m' !! p = fs !! p)
     /\ (opens E fs args = true -> is_Some (files m' !! nth 1 args ""%string)))
  \/ (main E program args (boot fs) = Fault /\ opens E fs args = true).
Proof.
  destruct (two_args_or_not args) as [Hargs|(inp & outp & ->)].
  - (* usage *)
    left. rewrite (opens_wrong_count E fs args Hargs). do 2 eexists.
    split; [|split; [|split; [|split; [|split]]]].
    + unfold main.
      replace (Z.of_nat (length (program :: args)) =? 3)%Z with false
        by (symmetry; apply Z.eqb_neq; simpl length; lia).
      reflexivity.
    + reflexivity.
    + reflexivity.
    + simpl. split; discriminate.
    + reflexivity.
    + discriminate.
  - rewrite main_two_args. simpl opens. simpl nth.
    destruct (can_read E fs inp) eqn:Hr.
    2:{ (* the input does not open *)
        left. do 2 eexists. split; [|split; [|split; [|split; [|split]]]].
        - apply bind_exit. rewrite open_input. simpl. rewrite Hr. reflexivity.
        - reflexivity.
        - reflexivity.
        - simpl. split; discriminate.
        - reflexivity.
        - discriminate. }
    set (m1 := set_input_file (Some (fresh inp)) (log (Opened inp) (boot fs))).
    rewrite (bind_return _ _ _ m1 tt) by (rewrite open_input; simpl; by rewrite Hr).
    destruct (may_write E outp) eqn:Hw.
    2:{ (* the output does not open *)
        left. do 2 eexists. split; [|split; [|split; [|split; [|split]]]].
        - apply bind_exit. rewrite open_output, Hw. reflexivity.
        - unfold held. simpl. by rewrite decide_True.
        - reflexivity.
        - simpl. split; discriminate.
        - reflexivity.
        - discriminate. }
    set (m2 := set_output_file (Some (fresh outp))
                 (log (Opened outp) (set_contents outp [] m1))).
    rewrite (bind_return _ _ _ m2 tt) by (rewrite open_output; by rewrite Hw).
    assert (Hown : owned m2).
    { unfold owned, held, resources. simpl. apply perm_swap. }
    assert (Hloop : main_loop E (loop_fuel m2) m2 = Fault
                    \/ exists m', main_loop E (loop_fuel m2) m2 = Return tt m'
                         /\ loop_frame m2 m' (fresh inp) (fresh outp)).
    { destruct (decide (inp = outp)) as [->|Hne].
      - right. change (loop_fuel m2) with (S (length (contents m2 outp))).
        assert (Hempty : unread E (contents m2 (f_path (fresh outp))) (f_pos (fresh outp)) = []).
        { unfold unread, served, contents, m2, m1. simpl. rewrite lookup_insert_eq. simpl.
          by destruct (read_fault E); rewrite ?take_nil. }
        rewrite (main_loop_end E _ m2 (fresh outp) eq_refl Hempty).
        eexists. split; [reflexivity|]. by eapply loop_frame_refl.
      - apply main_loop_frame; [done|done|done|].
        change (loop_fuel m2) with (S (length (contents m2 inp))).
        unfold unread. simpl. rewrite drop_0.
        pose proof (length_served E (contents m2 inp)). lia. }
    destruct Hloop as [Hfault|(m' & Hrun & Hfr)].
    { right. split; [|done]. unfold mbind, prog_bind. by rewrite Hfault. }
    left. rewrite (bind_return _ _ _ m' tt) by done.
    destruct Hfr as [_ _ Hf Hx Hs Hw'].
    destruct (cleanup_owned m' (Hw' Hown)) as (m'' & Hclean & Hheld & Hfiles & Hstderr).
    exists 0%Z, m''. split; [|split; [|split; [|split; [|split]]]].
    + unfold EXIT_SUCC. by rewrite (bind_return _ _ _ m'' tt).
    + done.
    + done.
    + rewrite Hstderr, Hs. done.
    + intros p Hp. rewrite Hfiles, Hf by done. unfold m2, m1. simpl.
      by rewrite lookup_insert_ne.
    + intros _. rewrite Hfiles. apply Hx. unfold m2, m1. simpl.
      rewrite lookup_insert_eq. by eexists.
Qed.

(** * Further properties of the code *)

(** ** [main]: every exit path *)

(** X1.  Whatever the command line, the file system and the environment, a
    run that ends in [exit] holds nothing at that point: every stream it
    opened is closed and the line buffer, if allocated, is freed. *)
Theorem exit_releases_everything (E : env) (program : string) (args : list string)
    (fs : gmap string (list ascii)) (st : Z) (m' : machine) :
  main E program args (boot fs) = Exit st m' -> held m' = [].
Proof.
  intros Hrun.
  destruct (main_outcome E program args fs) as [(st0 & m0 & Hrun0 & Hheld & _)|[Hfault _]];
    congruence.
Qed.

Lemma exit_releases_everything_witness :
  held (machine_of (run (plain_env NUL) hello_world)) = []
  /\ held (machine_of (main (locked NUL) "reverse" ["in"; "out"]%string
                         (boot (fs1 hello_world)))) = [].
Proof.
  split.
  - apply (exit_releases_everything (plain_env NUL) "reverse" ["in"; "out"]%string
             (fs1 hello_world) (status_of (run (plain_env NUL) hello_world))).
    vm_compute. reflexivity.
  - apply (exit_releases_everything (locked NUL) "reverse" ["in"; "out"]%string
             (fs1 hello_world)
             (status_of (main (locked NUL) "reverse" ["in"; "out"]%string
                           (boot (fs1 hello_world))))).
    vm_compute. reflexivity.
Defined.

(** X2.  The exit status is 0 when the command line has two arguments and
    both files open, and 1 otherwise; the error stream is empty exactly in
    the first case. *)
Theorem exit_status_meaning (E : env) (program : string) (args : list string)
    (fs : gmap string (list ascii)) (st : Z) (m' : machine) :
  main E program args (boot fs) = Exit st m' ->
  st = (if opens E fs args then 0 else 1)%Z
  /\ (stderr m' = ""%string <-> opens E fs args = true).
Proof.
  intros Hrun.
  destruct (main_outcome E program args fs)
    as [(st0 & m0 & Hrun0 & _ & Hst & Herr & _)|[Hfault _]]; [|congruence].
  rewrite Hrun in Hrun0. by injection Hrun0 as -> ->.
Qed.

Lemma exit_status_meaning_witness :
  status_of (main (plain_env NUL) "reverse" ["missing"; "out"]%string (boot (fs1 hello_world)))
  = (if opens (plain_env NUL) (fs1 hello_world) ["missing"; "out"]%string then 0 else 1)%Z
  /\ (stderr (machine_of (main (plain_env NUL) "reverse" ["missing"; "out"]%string
                           (boot (fs1 hello_world)))) = ""%string
      <-> opens (plain_env NUL) (fs1 hello_world) ["missing"; "out"]%string = true).
Proof.
  apply (exit_status_meaning (plain_env NUL) "reverse" ["missing"; "out"]%string
           (fs1 hello_world)).
  vm_compute. reflexivity.
Defined.

(** X3.  A run that ends in [exit] has changed no file but the one its
    second argument names: every other path of the file system holds what
    it held before, the input file included when the two paths differ. *)
Theorem only_output_file_changes (E : env) (program : string) (args : list string)
    (fs : gmap string (list ascii)) (st : Z) (m' : machine) (p : string) :
  main E program args (boot fs) = Exit st m' ->
  p ≠ nth 1 args ""%string ->
  files m' !! p = fs !! p.
Proof.
  intros Hrun Hp.
  destruct (main_outcome E program args fs)
    as [(st0 & m0 & Hrun0 & _ & _ & _ & Hfiles & _)|[Hfault _]]; [|congruence].
  rewrite Hrun in Hrun0. injection Hrun0 as -> ->. by apply Hfiles.
Qed.

Lemma only_output_file_changes_witness :
  files (machine_of (run (plain_env NUL) hello_world)) !! "in"%string
  = fs1 hello_world !! "in"%string.
Proof.
  apply (only_output_file_changes (plain_env NUL) "reverse" ["in"; "out"]%string
           (fs1 hello_world) (status_of (run (plain_env NUL) hello_world))).
  - vm_compute. reflexivity.
  - discriminate.
Defined.

(** X4.  A run of [main] always ends, and it never ends by falling off the
    end of [main]: it calls [exit], or it runs into undefined behaviour,
    which can only happen once both files are open. *)
Theorem main_exits_or_faults (E : env) (program : string) (args : list string)
    (fs : gmap string (list ascii)) :
  (exists st m', main E program args (boot fs) = Exit st m')
  \/ (main E program args (boot fs) = Fault /\ opens E fs args = true).
Proof.
  destruct (main_outcome E program args fs) as [(st & m' & Hrun & _)|Hfault]; [left|right].
  - by exists st, m'.
  - done.
Qed.

(** X5.  The same path given as input and as output: the file is emptied
    when it is opened for writing, before a line is read, so the run ends
    with status 0, an empty file and nothing reversed. *)
Theorem same_path_empties_file (E : env) (program p : string)
    (fs : gmap string (list ascii)) :
  can_read E fs p = true -> may_write E p = true ->
  exists m', main E program [p; p] (boot fs) = Exit 0 m'
    /\ files m' !! p = Some []
    /\ (forall q, q ≠ p -> files m' !! q = fs !! q)
    /\ held m' = []
    /\ stderr m' = ""%string.
Proof.
  intros Hr Hw. rewrite main_two_args.
  set (m1 := set_input_file (Some (fresh p)) (log (Opened p) (boot fs))).
  rewrite (bind_return _ _ _ m1 tt) by (rewrite open_input; simpl; by rewrite Hr).
  set (m2 := set_output_file (Some (fresh p)) (log (Opened p) (set_contents p [] m1))).
  rewrite (bind_return _ _ _ m2 tt) by (rewrite open_output; by rewrite Hw).
  assert (Hempty : unread E (contents m2 (f_path (fresh p))) (f_pos (fresh p)) = []).
  { unfold unread, served, contents, m2, m1. simpl. rewrite lookup_insert_eq. simpl.
    by destruct (read_fault E); rewrite ?take_nil. }
  set (m3 := set_input_file
                (Some (flag_error (read_fails E (contents m2 (f_path (fresh p)))) (fresh p))) m2).
  rewrite (bind_return _ _ _ m3 tt)
    by exact (main_loop_end E (length (contents m2 p)) m2 (fresh p) eq_refl Hempty).
  assert (Hown : owned m3).
  { unfold owned, held, resources. simpl. apply perm_swap. }
  destruct (cleanup_owned m3 Hown) as (m' & Hclean & Hheld & Hfiles & Hstderr).
  exists m'. split; [|split; [|split; [|split]]].
  - unfold EXIT_SUCC. by rewrite (bind_return _ _ _ m' tt).
  - rewrite Hfiles. unfold m3, m2, m1. simpl. by rewrite lookup_insert_eq.
  - intros q Hq. rewrite Hfiles. unfold m3, m2, m1. simpl. by rewrite lookup_insert_ne.
  - done.
  - by rewrite Hstderr.
Qed.

Lemma same_path_empties_file_witness :
  exists m', main (plain_env NUL) "reverse" ["in"; "in"]%string (boot (fs1 hello_world))
             = Exit 0 m'
    /\ files m' !! "in"%string = Some []
    /\ (forall q, q ≠ "in"%string -> files m' !! q = fs1 hello_world !! q)
    /\ held m' = []
    /\ stderr m' = ""%string.
Proof.
  apply (same_path_empties_file (plain_env NUL) "reverse" "in" (fs1 hello_world)).
  - vm_compute. reflexivity.
  - reflexivity.
Defined.

(** X6.  An empty input file: the run ends with status 0 and an empty output
    file, whatever the output file held before; the input file is as it
    was, nothing is held and nothing was printed on the error stream. *)
Theorem empty_input_empty_output (E : env) (program inp outp : string)
    (fs : gmap string (list ascii)) :
  may_read E inp = true -> may_write E outp = true -> inp ≠ outp ->
  fs !! inp = Some [] ->
  exists m', main E program [inp; outp] (boot fs) = Exit 0 m'
    /\ files m' !! outp = Some []
    /\ files m' !! inp = Some []
    /\ held m' = []
    /\ stderr m' = ""%string.
Proof.
  intros Hr Hw Hne Hfs. rewrite main_two_args.
  set (m1 := set_input_file (Some (fresh inp)) (log (Opened inp) (boot fs))).
  rewrite (bind_return _ _ _ m1 tt)
    by (rewrite open_input; unfold can_read; simpl; by rewrite Hr, Hfs).
  set (m2 := set_output_file (Some (fresh outp)) (log (Opened outp) (set_contents outp [] m1))).
  rewrite (bind_return _ _ _ m2 tt) by (rewrite open_output; by rewrite Hw).
  assert (Hempty : unread E (contents m2 (f_path (fresh inp))) (f_pos (fresh inp)) = []).
  { unfold unread, served, contents, m2, m1. simpl.
    rewrite lookup_insert_ne by done. rewrite Hfs. simpl.
    by destruct (read_fault E); rewrite ?take_nil. }
  set (m3 := set_input_file
                (Some (flag_error (read_fails E (contents m2 (f_path (fresh inp)))) (fresh inp))) m2).
  rewrite (bind_return _ _ _ m3 tt)
    by exact (main_loop_end E (length (contents m2 inp)) m2 (fresh inp) eq_refl Hempty).
  assert (Hown : owned m3).
  { unfold owned, held, resources. simpl. apply perm_swap. }
  destruct (cleanup_owned m3 Hown) as (m' & Hclean & Hheld & Hfiles & Hstderr).
  exists m'. split; [|split; [|split; [|split]]].
  - unfold EXIT_SUCC. by rewrite (bind_return _ _ _ m' tt).
  - rewrite Hfiles. unfold m3, m2, m1. simpl. by rewrite lookup_insert_eq.
  - rewrite Hfiles. unfold m3, m2, m1. simpl. by rewrite lookup_insert_ne.
  - done.
  - by rewrite Hstderr.
Qed.

Lemma empty_input_empty_output_witness :
  exists m', main (plain_env NUL) "reverse" ["in"; "out"]%string
               (boot (<["out"%string := hello_world]> (fs1 []))) = Exit 0 m'
    /\ files m' !! "out"%string = Some []
    /\ files m' !! "in"%string = Some []
    /\ held m' = []
    /\ stderr m' = ""%string.
Proof.
  apply (empty_input_empty_output (plain_env NUL) "reverse" "in" "out"
           (<["out"%string := hello_world]> (fs1 []))).
  - reflexivity.
  - reflexivity.
  - discriminate.
  - vm_compute. reflexivity.
Defined.

(** ** [reverse_line] *)

Lemma reverse_mem_right_end (mem : list ascii) :
  reverse_mem mem
  = match right_end mem with
    | Some r => swap_loop (length mem) mem 0%Z r
    | None => None
    end.
Proof. unfold reverse_mem, right_end. by destruct (snd (scan_newline mem 0)). Qed.

Lemma right_end_before_block (mem : list ascii) :
  right_end mem = Some (-1)%Z <-> head mem = Some NL.
Proof.
  unfold right_end.
  destruct (first_newline mem) as [Hno|(pre & post & -> & Hpre)].
  - rewrite scan_newline_missing by done. simpl. split; [done|].
    intros Hhead. destruct mem as [|c mem]; [done|]. injection Hhead as ->.
    exfalso. apply Hno. by left.
  - rewrite scan_newline_found by done. simpl.
    destruct pre as [|c pre]; simpl; [done|]. split.
    + intros [= H]. lia.
    + intros [= ->]. exfalso. apply Hpre. by left.
Qed.

(** X7.  Where [reverse_line] leaves the block.  A byte outside the
    allocated block is read (or the NULL pointer is read through), which
    ends the run in [Fault], exactly when the buffer pointer is NULL or the
    block holds no newline anywhere.  This is not all the undefined
    behaviour of the function: on a block that starts with a newline, as for
    every blank line, and on no other block, [right--] steps [right] to
    offset -1, one before the block.  Nothing is read or written there: the
    call returns and leaves the machine as it is. *)
Theorem reverse_line_leaves_block_iff (m : machine) :
  (reverse_line m = Fault <-> (forall mem, input_line_buffer m = Some mem -> NL ∉ mem))
  /\ (forall mem, input_line_buffer m = Some mem ->
        (right_end mem = Some (-1)%Z <-> head mem = Some NL)
        /\ (head mem = Some NL -> reverse_line m = Return tt m)).
Proof.
  split.
  - unfold reverse_line. destruct (input_line_buffer m) as [mem|].
    + destruct (reverse_mem mem) as [mem'|] eqn:Hrev; split.
      * discriminate.
      * intros Hno. specialize (Hno mem eq_refl).
        apply reverse_mem_no_newline in Hno. congruence.
      * intros _ mem0 [= <-]. by apply reverse_mem_None.
      * done.
    + split; [by intros _ mem [=] | done].
  - intros mem Hbuf. split; [apply right_end_before_block|].
    intros Hhead. destruct mem as [|c post]; [done|]. injection Hhead as ->.
    unfold reverse_line. rewrite Hbuf.
    pose proof (reverse_mem_newline [] post (not_elem_of_nil NL)) as Hrev.
    simpl in Hrev. rewrite Hrev. f_equal.
    destruct m. simpl in Hbuf. subst. reflexivity.
Qed.

Lemma reverse_line_leaves_block_iff_witness :
  right_end [NL; NUL] = Some (-1)%Z
  /\ reverse_line (holding [NL; NUL]) = Return tt (holding [NL; NUL]).
Proof.
  destruct (proj2 (reverse_line_leaves_block_iff (holding [NL; NUL])) [NL; NUL] eq_refl)
    as [Hright Hsame].
  split; [by apply Hright | by apply Hsame].
Defined.

(** X8.  Whenever [reverse_line] returns, running it again gives back the
    machine it started from: it is its own inverse, whatever the block
    holds. *)
Theorem reverse_line_involutive (m m' : machine) :
  reverse_line m = Return tt m' -> reverse_line m' = Return tt m.
Proof.
  unfold reverse_line.
  destruct (input_line_buffer m) as [mem|] eqn:Hbuf; [|discriminate].
  destruct (reverse_mem mem) as [mem'|] eqn:Hrev; [|discriminate].
  intros [= <-]. simpl. rewrite (reverse_mem_involutive _ _ Hrev).
  f_equal. destruct m. simpl in *. by subst.
Qed.

Lemma reverse_line_involutive_witness :
  reverse_line (machine_of (reverse_line (holding (olleh ++ [NUL]))))
  = Return tt (holding (olleh ++ [NUL])).
Proof.
  apply (reverse_line_involutive (holding (olleh ++ [NUL]))
           (machine_of (reverse_line (holding (olleh ++ [NUL]))))).
  vm_compute. reflexivity.
Defined.

(** X9.  When the line [get_next_line] delivers ends in a newline, the scan
    of [reverse_line] reads the offsets of that line and no other, whatever
    the buffer held before and however large the block is. *)
Theorem scan_stays_in_line (E : env) (m : machine) (f : FILE) :
  input_file m = Some f ->
  terminated (take_line (unread E (contents m (f_path f)) (f_pos f))) ->
  exists n m1 block, get_next_line E m = Return n m1
    /\ input_line_buffer m1 = Some block
    /\ scan_reads block
       = seq 0 (length (take_line (unread E (contents m (f_path f)) (f_pos f)))).
Proof.
  intros Hin Hterm.
  destruct (terminated_take_line _ Hterm) as (body & Hbody & Hnl).
  unfold get_next_line. rewrite Hin.
  rewrite (getline_line E f m _ eq_refl) by (rewrite Hbody; by destruct body).
  do 3 eexists. split; [reflexivity|]. split; [reflexivity|].
  destruct (store_line_tail E (input_line_buffer m)
              (take_line (unread E (contents m (f_path f)) (f_pos f)))) as [rest ->].
  rewrite Hbody. by apply scan_reads_terminated.
Qed.

Lemma scan_stays_in_line_witness :
  exists n m1 block, get_next_line (plain_env NUL) (reading hello_world) = Return n m1
    /\ input_line_buffer m1 = Some block
    /\ scan_reads block
       = seq 0 (length (take_line (unread (plain_env NUL)
                                     (contents (reading hello_world) (f_path (fresh "in")))
                                     (f_pos (fresh "in"))))).
Proof.
  apply (scan_stays_in_line (plain_env NUL) (reading hello_world) (fresh "in")).
  - reflexivity.
  - vm_compute. reflexivity.
Defined.

(** X10.  A line without a newline, followed in the block by its terminator
    and by older bytes that hold a newline: [reverse_line] reverses
    everything up to that newline, so the terminator moves, and
    [output_line] then prints the reversed older bytes up to their first
    NUL: it prints no byte of the line itself. *)
Theorem unterminated_line_prints_stale_bytes (E : env) (m : machine) (fout : FILE)
    (l pre post : list ascii) :
  input_line_buffer m = Some (l ++ NUL :: pre ++ NL :: post) ->
  output_file m = Some fout ->
  NL ∉ l -> NL ∉ pre ->
  (reverse_line ;; output_line E) m
  = Return tt (fprintf_s E fout (until_nul (reverse pre))
                 (set_block (reverse pre ++ NUL :: reverse l ++ NL :: post) m)).
Proof.
  intros Hbuf Hout Hl Hpre.
  unfold mbind, prog_bind, reverse_line. rewrite Hbuf.
  rewrite reverse_mem_unterminated_swap by done.
  unfold output_line. simpl. rewrite Hout.
  by rewrite c_string_until_nul.
Qed.

Lemma unterminated_line_prints_stale_bytes_witness :
  (reverse_line ;; output_line (plain_env NUL)) (holding stale_block)
  = Return tt (fprintf_s (plain_env NUL) (fresh "out") (until_nul (reverse (chars "edcba")))
                 (set_block (reverse (chars "edcba") ++ NUL :: reverse (chars "xy")
                               ++ NL :: [NUL])
                    (holding stale_block))).
Proof.
  apply (unterminated_line_prints_stale_bytes (plain_env NUL) (holding stale_block)
           (fresh "out") (chars "xy") (chars "edcba") [NUL]).
  - reflexivity.
  - reflexivity.
  - apply (bool_decide_unpack _). vm_compute. exact I.
  - apply (bool_decide_unpack _). vm_compute. exact I.
Defined.

(** ** [output_line] *)

(** X11.  [output_line] only appends: when it returns, every file holds what
    it held before, followed for the output file by what was printed; files
    other than the one behind [output_file] are untouched, and so are the
    input stream, the line buffer, the error stream and the resources. *)
Theorem output_line_appends (E : env) (m m' : machine) :
  output_line E m = Return tt m' ->
  (forall p, contents m p `prefix_of` contents m' p)
  /\ (forall p, (forall f, output_file m = Some f -> f_path f ≠ p) ->
                files m' !! p = files m !! p)
  /\ input_file m' = input_file m
  /\ input_line_buffer m' = input_line_buffer m
  /\ stderr m' = stderr m
  /\ events m' = events m.
Proof.
  unfold output_line.
  destruct (input_line_buffer m) as [mem|] eqn:Hbuf;
    [destruct (output_file m) as [f|] eqn:Hout|]; try (by intros [= <-]).
  destruct (c_string mem) as [s|]; [|discriminate].
  intros [= <-]. unfold fprintf_s.
  destruct (accepted _ _ _); simpl; [|by rewrite Hbuf].
  split; [|split; [|by rewrite Hbuf]].
  - intros p. unfold contents at 2. simpl.
    destruct (decide (f_path f = p)) as [<-|Hp].
    + rewrite lookup_insert_eq. simpl. by apply prefix_app_r.
    + by rewrite lookup_insert_ne.
  - intros p Hp. rewrite lookup_insert_ne; [done|]. by apply Hp.
Qed.

Lemma output_line_appends_witness :
  (forall p, contents (holding (olleh ++ [NUL])) p
             `prefix_of` contents (machine_of (output_line (plain_env NUL)
                                                 (holding (olleh ++ [NUL])))) p)
  /\ (forall p, (forall f, output_file (holding (olleh ++ [NUL])) = Some f -> f_path f ≠ p) ->
                files (machine_of (output_line (plain_env NUL) (holding (olleh ++ [NUL])))) !! p
                = files (holding (olleh ++ [NUL])) !! p)
  /\ input_file (machine_of (output_line (plain_env NUL) (holding (olleh ++ [NUL]))))
     = input_file (holding (olleh ++ [NUL]))
  /\ input_line_buffer (machine_of (output_line (plain_env NUL) (holding (olleh ++ [NUL]))))
     = input_line_buffer (holding (olleh ++ [NUL]))
  /\ stderr (machine_of (output_line (plain_env NUL) (holding (olleh ++ [NUL]))))
     = stderr (holding (olleh ++ [NUL]))
  /\ events (machine_of (output_line (plain_env NUL) (holding (olleh ++ [NUL]))))
     = events (holding (olleh ++ [NUL])).
Proof.
  apply (output_line_appends (plain_env NUL) (holding (olleh ++ [NUL]))).
  vm_compute. reflexivity.
Defined.

(** ** [cleanup] *)

(** X12.  When the process holds exactly what its globals refer to,
    [cleanup] releases all of it and touches neither a file nor the error
    stream. *)
Theorem cleanup_releases (m : machine) :
  owned m ->
  exists m', cleanup m = Return tt m'
    /\ held m' = [] /\ files m' = files m /\ stderr m' = stderr m.
Proof. apply cleanup_owned. Qed.

Lemma cleanup_releases_witness :
  exists m', cleanup opened = Return tt m'
    /\ held m' = [] /\ files m' = files opened /\ stderr m' = stderr opened.
Proof.
  apply (cleanup_releases opened).
  unfold owned. vm_compute. apply perm_swap.
Defined.

(** ** [get_next_line] *)

Lemma to_int_end_iff (z : Z) :
  (0 <= z)%Z -> to_int z = END_OF_INPUT <-> (z mod 2 ^ 32 = 2 ^ 32 - 1)%Z.
Proof.
  intros Hz. unfold to_int, END_OF_INPUT.
  pose proof (Z.mod_pos_bound z (2 ^ 32) ltac:(lia)) as Hr.
  pose proof (Z.div_mod z (2 ^ 32) ltac:(lia)) as Hdm.
  set (q := (z / 2 ^ 32)%Z) in *. set (r := (z mod 2 ^ 32)%Z) in *.
  replace (z + 2 ^ 31)%Z with ((r + 2 ^ 31) + q * 2 ^ 32)%Z by lia.
  rewrite Z.mod_add by lia.
  destruct (Z.lt_ge_cases r (2 ^ 31)) as [Hlt|Hge].
  - rewrite Z.mod_small by lia. lia.
  - replace (r + 2 ^ 31)%Z with ((r - 2 ^ 31) + 1 * 2 ^ 32)%Z by lia.
    rewrite Z.mod_add by lia. rewrite Z.mod_small by lia. lia.
Qed.

(** X13.  With an open input stream [get_next_line] always returns, and what
    it returns is [END_OF_INPUT] exactly when no byte could be read or the
    line read has a length that is [UINT_MAX] modulo 2^32: the [int] result
    cannot tell such a line from the end of the input. *)
Theorem end_of_input_iff (E : env) (m : machine) (f : FILE) :
  input_file m = Some f ->
  exists n m1, get_next_line E m = Return n m1
    /\ (n = END_OF_INPUT <->
        unread E (contents m (f_path f)) (f_pos f) = []
        \/ (Z.of_nat (length (take_line (unread E (contents m (f_path f)) (f_pos f))))
              mod 2 ^ 32 = 2 ^ 32 - 1)%Z).
Proof.
  intros Hin. unfold get_next_line. rewrite Hin.
  destruct (unread E (contents m (f_path f)) (f_pos f)) as [|c rest] eqn:Hrest.
  - rewrite getline_end by done. do 2 eexists. split; [reflexivity|].
    rewrite to_int_eof. split; [by left | done].
  - rewrite <- Hrest.
    assert (Hl : take_line (unread E (contents m (f_path f)) (f_pos f)) ≠ []).
    { intros Hnil. apply take_line_nil in Hnil. by rewrite Hnil in Hrest. }
    rewrite (getline_line E f m _ eq_refl Hl). do 2 eexists. split; [reflexivity|].
    rewrite to_int_end_iff by lia. split; [by right|].
    intros [Hnil|Hmod]; [by rewrite Hnil in Hrest | done].
Qed.

Lemma end_of_input_iff_witness :
  exists n m1, get_next_line (plain_env NUL) (reading hello_world) = Return n m1
    /\ (n = END_OF_INPUT <->
        unread (plain_env NUL) (contents (reading hello_world) (f_path (fresh "in")))
          (f_pos (fresh "in")) = []
        \/ (Z.of_nat (length (take_line
                                (unread (plain_env NUL)
                                   (contents (reading hello_world) (f_path (fresh "in")))
                                   (f_pos (fresh "in")))))
              mod 2 ^ 32 = 2 ^ 32 - 1)%Z).
Proof.
  apply (end_of_input_iff (plain_env NUL) (reading hello_world) (fresh "in")).
  reflexivity.
Defined.

(** ** The terminator stays in the block *)

Lemma c_string_is_Some (mem : list ascii) : NUL ∈ mem -> is_Some (c_string mem).
Proof.
  induction mem as [|c mem IH]; intros Hin; [by apply elem_of_nil in Hin|].
  simpl. destruct (decide (c = NUL)); [by eexists|].
  apply elem_of_cons in Hin as [?|Hin]; [congruence|].
  destruct (IH Hin) as [s ->]. by eexists.
Qed.

Lemma reverse_mem_elem (c : ascii) (mem mem' : list ascii) :
  reverse_mem mem = Some mem' -> c ∈ mem -> c ∈ mem'.
Proof.
  destruct (first_newline mem) as [Hno|(pre & post & -> & Hpre)].
  - by rewrite reverse_mem_no_newline.
  - rewrite reverse_mem_newline by done. intros [= <-].
    rewrite !elem_of_app, elem_of_reverse. tauto.
Qed.

(** X14.  After [get_next_line] has delivered a line and [reverse_line] has
    returned, [output_line] returns as well: the terminator [getline]
    stored is still in the block, so [%s] never reads past it. *)
Theorem output_line_finds_terminator (E : env) (m m1 m2 : machine) (f : FILE) (n : Z) :
  input_file m = Some f ->
  get_next_line E m = Return n m1 ->
  n ≠ END_OF_INPUT ->
  reverse_line m1 = Return tt m2 ->
  exists m3, output_line E m2 = Return tt m3.
Proof.
  intros Hin Hget Hn Hrev. unfold get_next_line in Hget. rewrite Hin in Hget.
  destruct (decide (unread E (contents m (f_path f)) (f_pos f) = [])) as [Hrest|Hrest].
  { rewrite getline_end in Hget by done. injection Hget as <- <-. by rewrite to_int_eof in Hn. }
  assert (Hl : take_line (unread E (contents m (f_path f)) (f_pos f)) ≠ []).
  { intros Hnil. by apply take_line_nil in Hnil. }
  rewrite (getline_line E f m _ eq_refl Hl) in Hget. injection Hget as <- <-.
  unfold reverse_line in Hrev. simpl in Hrev.
  destruct (reverse_mem _) as [mem'|] eqn:Hmem; [|discriminate].
  injection Hrev as <-.
  assert (Hnul : NUL ∈ mem').
  { eapply reverse_mem_elem; [exact Hmem|].
    destruct (store_line_tail E (input_line_buffer m)
                (take_line (unread E (contents m (f_path f)) (f_pos f)))) as [tail ->].
    apply elem_of_app. right. apply elem_of_cons. by left. }
  destruct (c_string_is_Some mem' Hnul) as [s Hs].
  unfold output_line. simpl. rewrite Hs.
  destruct (output_file _); by eexists.
Qed.

Lemma output_line_finds_terminator_witness :
  exists m3,
    output_line (plain_env NUL)
      (machine_of (reverse_line
                     (machine_of (get_next_line (plain_env NUL) (reading hello_world)))))
    = Return tt m3.
Proof.
  apply (output_line_finds_terminator (plain_env NUL) (reading hello_world)
           (machine_of (get_next_line (plain_env NUL) (reading hello_world)))
           (machine_of (reverse_line
                          (machine_of (get_next_line (plain_env NUL) (reading hello_world)))))
           (fresh "in") 6%Z).
  - reflexivity.
  - vm_compute. reflexivity.
  - discriminate.
  - vm_compute. reflexivity.
Defined.

(** ** NUL bytes in the input *)

Lemma written_no_quota (E : env) (old : list ascii) (ls : list (list ascii)) :
  disk_quota E = None ->
  written E old ls = old ++ concat ((fun l => until_nul (spec_reverse l)) <$> ls).
Proof.
  intros Hq. revert old. induction ls as [|l ls IH]; intros old; simpl.
  - by rewrite app_nil_r.
  - unfold accepted. rewrite Hq. by rewrite IH, app_assoc.
Qed.

(** X15.  Lines that hold NUL bytes: on a system without faults, for an
    input whose lines all end in a newline, the output file holds, for each
    input line in order, the reversed line up to its first NUL byte; what
    follows that byte in the reversed line, the newline included, is not
    written. *)
Theorem output_cut_at_nul (E : env) (program inp outp : string)
    (fs : gmap string (list ascii)) (content : list ascii) :
  may_read E inp = true -> may_write E outp = true -> inp ≠ outp ->
  read_fault E = None -> disk_quota E = None ->
  fs !! inp = Some content ->
  Forall terminated (split_lines content) ->
  fits_int (length content) ->
  exists m', main E program [inp; outp] (boot fs) = Exit 0 m'
    /\ contents m' outp
       = concat ((fun l => until_nul (spec_reverse l)) <$> split_lines content).
Proof.
  intros Hr Hw Hne Hrf Hq Hfs Hterm Hfit.
  assert (Hserved : served E content = content) by (unfold served; by rewrite Hrf).
  destruct (main_runs E program inp outp fs content) as (m' & Hrun & Hout & _); try done.
  { rewrite Hserved. apply Forall_forall. intros l Hl. split.
    - by eapply Forall_forall in Hterm.
    - pose proof (split_lines_length _ _ Hl). unfold fits_int in *. lia. }
  exists m'. split; [done|].
  by rewrite Hout, Hserved, written_no_quota.
Qed.

Lemma output_cut_at_nul_witness :
  exists m', main (plain_env NUL) "reverse" ["in"; "out"]%string (boot (fs1 nul_text))
             = Exit 0 m'
    /\ contents m' "out"
       = concat ((fun l => until_nul (spec_reverse l)) <$> split_lines nul_text).
Proof.
  apply (output_cut_at_nul (plain_env NUL) "reverse" "in" "out" (fs1 nul_text) nul_text).
  - reflexivity.
  - reflexivity.
  - discriminate.
  - reflexivity.
  - reflexivity.
  - vm_compute. reflexivity.
  - each_line.
  - vm_compute. reflexivity.
Defined.

(** ** Running the program on its own output *)

Lemma spec_reverse_length (l : list ascii) : length (spec_reverse l) = length l.
Proof.
  unfold spec_reverse. destruct (decide (last l = Some NL)) as [Hl|Hl].
  - apply last_Some in Hl as [body ->]. rewrite removelast_last.
    by rewrite !length_app, length_reverse.
  - apply length_reverse.
Qed.

Lemma spec_reverse_involutive (l : list ascii) :
  terminated l -> spec_reverse (spec_reverse l) = l.
Proof.
  intros Hl. apply last_Some in Hl as [body ->].
  by rewrite !spec_reverse_terminated, reverse_involutive.
Qed.

Lemma spec_reverse_lines (content : list ascii) :
  Forall terminated (split_lines content) ->
  split_lines (concat (spec_reverse <$> split_lines content))
  = spec_reverse <$> split_lines content.
Proof.
  intros Hterm. apply split_lines_concat.
  apply Forall_fmap, Forall_forall. intros l Hl. simpl.
  pose proof (split_lines_terminated content) as Hshape.
  eapply Forall_forall in Hshape; [|done]. eapply Forall_forall in Hterm; [|done].
  destruct (Hshape Hterm) as (body & -> & Hbody).
  exists (reverse body). split; [apply spec_reverse_terminated|].
  by apply not_elem_of_reverse.
Qed.

Lemma length_concat_spec_reverse (ls : list (list ascii)) :
  length (concat (spec_reverse <$> ls)) = length (concat ls).
Proof.
  induction ls as [|l ls IH]; [done|].
  rewrite fmap_cons. cbn [concat].
  by rewrite !length_app, spec_reverse_length, IH.
Qed.

Lemma elem_of_concat_spec_reverse (c : ascii) (ls : list (list ascii)) :
  c ∈ concat (spec_reverse <$> ls) -> c ∈ concat ls.
Proof.
  induction ls as [|l ls IH]; [done|].
  rewrite fmap_cons. cbn [concat]. rewrite !elem_of_app, elem_of_spec_reverse. tauto.
Qed.

Lemma plain_run (E : env) (program inp outp : string)
    (fs : gmap string (list ascii)) (content : list ascii) :
  may_read E inp = true -> may_write E outp = true -> inp ≠ outp ->
  read_fault E = None -> disk_quota E = None ->
  fs !! inp = Some content ->
  NUL ∉ content ->
  Forall terminated (split_lines content) ->
  fits_int (length content) ->
  exists m', main E program [inp; outp] (boot fs) = Exit 0 m'
    /\ files m' !! outp = Some (concat (spec_reverse <$> split_lines content)).
Proof.
  intros Hr Hw Hne Hrf Hq Hfs Hnul Hterm Hfit.
  assert (Hserved : served E content = content) by (unfold served; by rewrite Hrf).
  destruct (main_runs E program inp outp fs content) as (m' & Hrun & Hout & _); try done.
  { rewrite Hserved. apply Forall_forall. intros l Hl. split.
    - by eapply Forall_forall in Hterm.
    - pose proof (split_lines_length _ _ Hl). unfold fits_int in *. lia. }
  rewrite Hserved in Hout.
  rewrite written_plain in Hout; [|done|].
  2:{ apply Forall_forall. intros l Hl Hin. apply Hnul. by eapply split_lines_elem. }
  exists m'. split; [done|].
  destruct (main_outcome E program [inp; outp] fs)
    as [(st & m0 & Hrun0 & _ & _ & _ & _ & Hsome)|[Hfault _]]; [|congruence].
  rewrite Hrun in Hrun0. injection Hrun0 as <- <-.
  destruct Hsome as [c Hc].
  { unfold opens, can_read. rewrite Hr, Hw, Hfs. reflexivity. }
  simpl in Hc. unfold contents in Hout. rewrite Hc in Hout. simpl in Hout. by rewrite Hc, Hout.
Qed.

(** X16.  Running the program on its own output gives the input back.  On
    a system without faults, for a text without NUL bytes whose lines all
    end in a newline, [reverse inp mid] followed by [reverse mid back]
    leaves in [back] exactly the bytes of [inp]; both runs exit 0.  [back]
    may be [inp] itself. *)
Theorem reverse_twice_restores_file (E : env) (program inp mid back : string)
    (fs : gmap string (list ascii)) (content : list ascii) :
  may_read E inp = true -> may_write E mid = true ->
  may_read E mid = true -> may_write E back = true ->
  inp ≠ mid -> mid ≠ back ->
  read_fault E = None -> disk_quota E = None ->
  fs !! inp = Some content ->
  NUL ∉ content ->
  Forall terminated (split_lines content) ->
  fits_int (length content) ->
  exists m1 m2,
    main E program [inp; mid] (boot fs) = Exit 0 m1
    /\ main E program [mid; back] (boot (files m1)) = Exit 0 m2
    /\ files m2 !! back = Some content.
Proof.
  intros Hr1 Hw1 Hr2 Hw2 Hne1 Hne2 Hrf Hq Hfs Hnul Hterm Hfit.
  destruct (plain_run E program inp mid fs content) as (m1 & Hrun1 & Hmid); try done.
  set (mirror := concat (spec_reverse <$> split_lines content)) in *.
  assert (Hlines : split_lines mirror = spec_reverse <$> split_lines content)
    by by apply spec_reverse_lines.
  destruct (plain_run E program mid back (files m1) mirror) as (m2 & Hrun2 & Hback);
    try done.
  - intros Hin. apply Hnul. unfold mirror in Hin.
    apply elem_of_concat_spec_reverse in Hin. by rewrite concat_split_lines in Hin.
  - rewrite Hlines. apply Forall_fmap, Forall_forall. intros l Hl. simpl.
    eapply Forall_forall in Hterm; [|done].
    apply last_Some in Hterm as [body ->].
    rewrite spec_reverse_terminated. apply terminated_snoc.
  - unfold mirror. rewrite length_concat_spec_reverse, concat_split_lines. done.
  - exists m1, m2. split; [done|]. split; [done|].
    rewrite Hback, Hlines. f_equal.
    rewrite <- list_fmap_compose.
    rewrite <- (concat_split_lines content) at 2. f_equal.
    rewrite <- (list_fmap_id (split_lines content)) at 2.
    apply Forall_fmap_ext, Forall_forall. intros l Hl. simpl.
    apply spec_reverse_involutive. by eapply Forall_forall in Hterm.
Qed.

Lemma reverse_twice_restores_file_witness :
  exists m1 m2,
    main (plain_env NUL) "reverse" ["in"; "out"]%string (boot (fs1 hello_world)) = Exit 0 m1
    /\ main (plain_env NUL) "reverse" ["out"; "in"]%string (boot (files m1)) = Exit 0 m2
    /\ files m2 !! "in"%string = Some hello_world.
Proof.
  apply (reverse_twice_restores_file (plain_env NUL) "reverse" "in" "out" "in"
           (fs1 hello_world) hello_world).
  - reflexivity.
  - reflexivity.
  - reflexivity.
  - reflexivity.
  - discriminate.
  - discriminate.
  - reflexivity.
  - reflexivity.
  - vm_compute. reflexivity.
  - apply (bool_decide_unpack _). vm_compute. exact I.
  - each_line.
  - vm_compute. reflexivity.
Defined.
